(** * ant_nest: the [Ant] orchestrator of [ant_nest/ant.py]

    A shallow embedding of the [Ant] class: the pipeline runner
    [_handle_thing_with_pipelines], the reporter [report], the session cache
    and request translation of [_request], the retrying send of [request],
    and the lifecycle methods [open], [close], [main] and [collect].

    Python values are an inductive type, the mutable attributes of an [Ant]
    instance are a record [State] threaded through a small monad [M] that
    also carries raised exceptions and a write-only trace of the calls the
    method makes to its collaborators (pipelines, logger, sessions,
    scheduler).  The collaborators themselves (pipelines, the aiohttp
    transport, the user's [run]) are parameters acting on an abstract
    [World]. *)

From stdpp Require Import base option list strings gmap.
From Stdlib Require Import ZArith Lia.

Local Open Scope string_scope.
Local Open Scope list_scope.
Local Open Scope Z_scope.
Set Warnings "-register-all".

(** ** Python values *)

(** Instances of [Exception]: what [except Exception] catches, what
    [isinstance(thing, Exception)] accepts and what tenacity's
    [retry_if_exception_type()] retries.  [exn_cause] is the exception
    chained to it ([__cause__]), when there is one. *)
Inductive exn : Type :=
  | Exn (cls : string) (msg : string) (cause : option exn).

Definition exn_class (e : exn) : string := match e with Exn c _ _ => c end.
Definition exn_cause (e : exn) : option exn := match e with Exn _ _ c => c end.

Definition TimeoutError : exn := Exn "TimeoutError" "" None.
Definition AttributeError : exn := Exn "AttributeError" "" None.

(** [things.Request], with the fields of its [__slots__]; [req_host] is
    [req.url.host], which yarl leaves [None] for a relative URL. *)
Record Request : Type := mkRequest {
  req_url : string;
  req_host : option string;
  req_method : string;
  req_params : option (gmap string string);
  req_headers : option (gmap string string);
  req_cookies : option (gmap string string);
  req_data : option string
}.

Record Response : Type := mkResponse {
  res_request : Request;
  res_status : Z;
  res_content : string;
  res_headers : gmap string string;
  res_cookies : gmap string string;
  res_encoding : string
}.

Definition Item : Type := list (string * string).

(** What a pipeline may hand back: one of the three Things, [None], an
    exception instance, or any other object (given by its class name). *)
Inductive value : Type :=
  | VRequest (r : Request)
  | VResponse (r : Response)
  | VItem (i : Item)
  | VNone
  | VException (e : exn)
  | VObject (cls : string) (repr : string).

(** [isinstance(thing, Exception)] *)
Definition is_exception (v : value) : bool :=
  match v with VException _ => true | _ => false end.

(** Modelled from the spec: [things.py] is not part of the sources; the three
    kinds report under the names Request, Response and Item.
    [thing.__class__.__name__] *)
Definition class_name (v : value) : string :=
  match v with
  | VRequest _ => "Request"
  | VResponse _ => "Response"
  | VItem _ => "Item"
  | VNone => "NoneType"
  | VException e => exn_class e
  | VObject cls _ => cls
  end.

(** ** Insertion-ordered dictionaries

    [dict] and [defaultdict] iterate in insertion order, and [report], [main]
    and [close] iterate over them, so they are association lists without
    duplicate keys. *)
Section Dict.
Context {K V : Type} `{EqDecision K}.

Fixpoint dict_get (k : K) (d : list (K * V)) : option V :=
  match d with
  | [] => None
  | (k', v) :: rest => if decide (k = k') then Some v else dict_get k rest
  end.

(** [d[k] = v]: an existing key keeps its position, a new one goes last. *)
Fixpoint dict_set (k : K) (v : V) (d : list (K * V)) : list (K * V) :=
  match d with
  | [] => [(k, v)]
  | (k', v') :: rest =>
      if decide (k = k') then (k', v) :: rest else (k', v') :: dict_set k v rest
  end.

Definition dict_values (d : list (K * V)) : list V := map snd d.
Definition dict_keys (d : list (K * V)) : list K := map fst d.
End Dict.

(** A counter pair [[baseline, total]] of [_reports] / [_drop_reports]. *)
Definition counts : Type := (Z * Z)%type.
Definition counters : Type := list (string * counts).

(** [defaultdict(lambda: [0, 0]).__getitem__]: a missing key is inserted
    with a fresh [[0, 0]]. *)
Definition defaultdict_getitem (k : string) (d : counters) : counts * counters :=
  match dict_get k d with
  | Some c => (c, d)
  | None => ((0, 0), dict_set k (0, 0) d)
  end.

(** The running total of kind [k]; a kind never seen counts 0. *)
Definition total_of (k : string) (d : counters) : Z :=
  match dict_get k d with Some c => snd c | None => 0 end.

(** The baseline of kind [k], i.e. the total at the last flush. *)
Definition baseline_of (k : string) (d : counters) : Z :=
  match dict_get k d with Some c => fst c | None => 0 end.

(** ** Trace of calls to the collaborators *)

Inductive level : Type := DEBUG | INFO | EXCEPTION.

(** One constructor per format string of the source. *)
Inductive log_msg : Type :=
  | MsgCollectItem (item : value)
  | MsgOpening
  | MsgOpenPipelinesWith (cls : string)
  | MsgClosePipelinesWith (cls : string)
  | MsgClosed
  | MsgRunWith (cls : string)
  | MsgGetTotal (total : Z) (name : string)
  | MsgDropTotal (total : Z) (name : string)
  | MsgRunIn (ant : string) (seconds : Z)
  | MsgProcessThing (thing : value)
  | MsgGetRate (total : Z) (name : string) (count : Z) (slot : Z)
  | MsgDropRate (total : Z) (name : string) (count : Z) (slot : Z).

(** The keyword arguments [_request] passes to [session.request]. *)
Record Kwargs : Type := mkKwargs {
  kw_url : string;
  kw_method : string;
  kw_params : option (gmap string string);
  kw_headers : option (gmap string string);
  kw_data : option string;
  kw_proxy : option string;
  kw_max_redirects : Z;
  kw_allow_redirects : bool
}.

Inductive event : Type :=
  | EvLog (lv : level) (m : log_msg)
  | EvProcess (pipeline : string) (input : value)
  | EvSpiderOpen (pipeline : string)
  | EvSpiderClose (pipeline : string)
  | EvSessionNew (sid : nat) (cookies : option (gmap string string))
  | EvSessionRequest (sid : nat) (kw : Kwargs)
  | EvSessionClose (sid : nat)
  | EvSleep (delay : Z)
  | EvWaitScheduled.

(** ** Results of calls *)

Inductive Res (A : Type) : Type :=
  | Ok (a : A)
  | Raise (e : exn).
Arguments Ok {A} a.
Arguments Raise {A} e.

(** What calling a collaborator gives: a plain return or raise ([Now]), or a
    coroutine that, awaited, settles after [d] time-units ([Later]).  The
    change of the world that comes with the call is that of the whole call,
    awaited or not. *)
Inductive Settle (A : Type) : Type :=
  | Now (r : Res A)
  | Later (d : Z) (r : Res A).
Arguments Now {A} r.
Arguments Later {A} d r.

(** A timeout as [async_timeout.timeout] takes it: [None] is no bound. *)
Definition expired (timeout : option Z) (d : Z) : bool :=
  match timeout with
  | Some t => t <? d
  | None => false
  end.

(** [aiohttp.ClientSession]: its cookie jar, and whether it was closed. *)
Record Session : Type := mkSession {
  cookie_jar : gmap string string;
  closed : bool
}.

(** [CookieJar.update_cookies]: the new cookies are added, a name already in
    the jar takes the new value. *)
Definition update_cookies (new : gmap string string) (s : Session) : Session :=
  {| cookie_jar := new ∪ cookie_jar s; closed := closed s |}.

(** [aiohttp.ClientSession(cookies=cookies)] *)
Definition ClientSession (cookies : option (gmap string string)) : Session :=
  match cookies with
  | Some c => update_cookies c {| cookie_jar := ∅; closed := false |}
  | None => {| cookie_jar := ∅; closed := false |}
  end.

(** The part of [aiohttp.ClientResponse] that [_convert_response] reads. *)
Record ClientResponse : Type := mkClientResponse {
  aio_status : Z;
  aio_content : string;
  aio_headers : gmap string string;
  aio_cookies : gmap string string;
  aio_encoding : string
}.

Section Ant.
(** Everything outside the [Ant] instance: servers, files, the state of
    the pipelines. *)
Context {World : Type}.

(** ** The mutable attributes of an [Ant] instance

    [sessions] maps a host to a session object; session objects live in
    [heap] and are named by their index there, so that two dictionary
    entries can be asked whether they are the same object.  [clock] is what
    [time.time()] reads, in whole time-units. *)
Record State : Type := mkState {
  sessions : list (option string * nat);
  heap : list Session;
  _reports : counters;
  _drop_reports : counters;
  _start_time : Z;
  _last_time : Z;
  _report_slot : Z;
  clock : Z;
  world : World
}.

Definition set_sessions (d : list (option string * nat)) (st : State) : State :=
  mkState d (heap st) (_reports st) (_drop_reports st) (_start_time st)
          (_last_time st) (_report_slot st) (clock st) (world st).
Definition set_heap (h : list Session) (st : State) : State :=
  mkState (sessions st) h (_reports st) (_drop_reports st) (_start_time st)
          (_last_time st) (_report_slot st) (clock st) (world st).
Definition set_reports (r : counters) (st : State) : State :=
  mkState (sessions st) (heap st) r (_drop_reports st) (_start_time st)
          (_last_time st) (_report_slot st) (clock st) (world st).
Definition set_drop_reports (r : counters) (st : State) : State :=
  mkState (sessions st) (heap st) (_reports st) r (_start_time st)
          (_last_time st) (_report_slot st) (clock st) (world st).
Definition set_last_time (t : Z) (st : State) : State :=
  mkState (sessions st) (heap st) (_reports st) (_drop_reports st) (_start_time st)
          t (_report_slot st) (clock st) (world st).
Definition set_clock (t : Z) (st : State) : State :=
  mkState (sessions st) (heap st) (_reports st) (_drop_reports st) (_start_time st)
          (_last_time st) (_report_slot st) t (world st).
Definition set_world (w : World) (st : State) : State :=
  mkState (sessions st) (heap st) (_reports st) (_drop_reports st) (_start_time st)
          (_last_time st) (_report_slot st) (clock st) w.

(** [Ant.__init__] at clock reading [now]. *)
Definition init (now : Z) (w : World) : State :=
  {| sessions := []; heap := [];
     _reports := []; _drop_reports := [];
     _start_time := now; _last_time := now; _report_slot := 60;
     clock := now; world := w |}.

(** ** The monad of methods: state, exceptions, trace *)

Definition M (A : Type) : Type := State → Res A * State * list event.

Definition ret {A} (a : A) : M A := λ st, (Ok a, st, []).

Definition bind {A B} (m : M A) (k : A → M B) : M B := λ st,
  match m st with
  | (Ok a, st1, evs1) =>
      match k a st1 with
      | (r, st2, evs2) => (r, st2, evs1 ++ evs2)
      end
  | (Raise e, st1, evs1) => (Raise e, st1, evs1)
  end.

Definition raise {A} (e : exn) : M A := λ st, (Raise e, st, []).

(** [try: m  except Exception as e: h e] *)
Definition try_except {A} (m : M A) (h : exn → M A) : M A := λ st,
  match m st with
  | (Ok a, st1, evs1) => (Ok a, st1, evs1)
  | (Raise e, st1, evs1) =>
      match h e st1 with
      | (r, st2, evs2) => (r, st2, evs1 ++ evs2)
      end
  end.

Definition emit (ev : event) : M unit := λ st, (Ok tt, st, [ev]).
Definition gets {A} (f : State → A) : M A := λ st, (Ok (f st), st, []).
Definition modify (f : State → State) : M unit := λ st, (Ok tt, f st, []).
Definition lift_res {A} (r : Res A) : M A := λ st, (r, st, []).

Definition log (lv : level) (m : log_msg) : M unit := emit (EvLog lv m).

(** A call into the world. *)
Definition call_world {A} (f : World → A * World) : M A := λ st,
  let '(a, w) := f (world st) in (Ok a, set_world w st, []).

(** Time passing while the method is suspended. *)
Definition advance (d : Z) (st : State) : State :=
  set_clock (clock st + Z.max 0 d) st.

(** [await obj] *)
Definition await {A} (d : Z) (r : Res A) : M A := λ st, (r, advance d st, []).

(** [with async_timeout.timeout(timeout): await obj] : the coroutine is
    cancelled with a timeout error once the bound has passed. *)
Definition await_within {A} (timeout : option Z) (d : Z) (r : Res A) : M A := λ st,
  if expired timeout d
  then (Raise TimeoutError, advance (default 0 timeout) st, [])
  else (r, advance d st, []).
End Ant.

Declare Scope ant_scope.
Delimit Scope ant_scope with ant.
Notation "x <- m ;; k" := (bind m (λ x, k))
  (at level 100, m at next level, right associativity) : ant_scope.
Notation "m ;; k" := (bind m (λ _, k))
  (at level 100, right associativity) : ant_scope.
Local Open Scope ant_scope.

Section Methods.
Context {World : Type}.

Abbreviation M := (@M World).
Abbreviation State := (@State World).

(** ** Reporter: [Ant.report] *)

(** One pass of a [for name, counts in ....items()] loop of [report]:
    each pair logs its total and the count since its baseline, and its
    baseline becomes its total ([counts[0] = counts[1]]). *)
Definition flush_log (fmt : Z → string → Z → Z → log_msg) (slot : Z)
    (d : counters) : list event :=
  map (λ '(name, (b, t)), EvLog INFO (fmt t name (t - b) slot)) d.

Definition rebaseline (d : counters) : counters :=
  map (λ '(name, (b, t)), (name, (t, t))) d.

Definition flush_counters (fmt : Z → string → Z → Z → log_msg)
    (get : State → counters) (set : counters → State → State) : M unit :=
  λ st, (Ok tt, set (rebaseline (get st)) st, flush_log fmt (_report_slot st) (get st)).

(** [counts = reports[report_type]; counts[1] += 1], the pair being the
    object stored in the dictionary. *)
Definition count_one (report_type : string) (reports : counters) : counters :=
  let '((b, t), reports) := defaultdict_getitem report_type reports in
  dict_set report_type (b, t + 1) reports.

Definition report (thing : value) (dropped : bool) : M unit :=
  now_time <- gets clock ;;
  last_time <- gets _last_time ;;
  slot <- gets _report_slot ;;
  (if slot <? now_time - last_time then
     modify (set_last_time now_time) ;;
     flush_counters MsgGetRate _reports set_reports ;;
     flush_counters MsgDropRate _drop_reports set_drop_reports
   else ret tt) ;;
  let report_type := class_name thing in
  if dropped
  then modify (λ st, set_drop_reports (count_one report_type (_drop_reports st)) st)
  else modify (λ st, set_reports (count_one report_type (_reports st)) st).

(** ** Pipelines *)

(** Modelled from the spec: [pipelines.py] is not part of the sources; a
    pipeline is its three operations, each of which may return, raise or
    hand back a coroutine, and may change the world.  [pl_name] is the
    name of its class. *)
Record Pipeline : Type := mkPipeline {
  pl_name : string;
  process : value → World → Settle value * World;
  on_spider_open : World → Settle unit * World;
  on_spider_close : World → Settle unit * World
}.

(** One turn of the loop of [_handle_thing_with_pipelines] up to the test
    of the result: [pipeline.process(thing)], awaited under the timeout
    when it is a coroutine. *)
Definition stage (timeout : option Z) (pipeline : Pipeline) (thing : value) : M value :=
  emit (EvProcess (pl_name pipeline) thing) ;;
  obj <- call_world (process pipeline thing) ;;
  match obj with
  | Now r => lift_res r
  | Later d r => await_within timeout d r
  end.

Fixpoint pipeline_loop (raw_thing : value) (timeout : option Z)
    (pipelines : list Pipeline) (thing : value) : M value :=
  match pipelines with
  | [] => ret thing
  | pipeline :: rest =>
      thing <- stage timeout pipeline thing ;;
      match thing with
      | VException e => report raw_thing true ;; raise e
      | _ => pipeline_loop raw_thing timeout rest thing
      end
  end.

Definition _handle_thing_with_pipelines (thing : value) (pipelines : list Pipeline)
    (timeout : option Z) : M value :=
  log DEBUG (MsgProcessThing thing) ;;
  pipeline_loop thing timeout pipelines thing.

(** ** Collaborators of the network send *)

(** [aiohttp.client.DEFAULT_TIMEOUT] *)
Variable DEFAULT_TIMEOUT : option Z.
(** [URL(proxy).user] *)
Variable url_user : string → option string.
(** [aiohttp.BasicAuth.from_url(URL(proxy)).encode()] *)
Variable basic_auth : string → string.
(** [session.request] on the keyword arguments, then [aio_response.read()] *)
Variable session_request : nat → Kwargs → World → Settle ClientResponse * World.
(** [session.close()] *)
Variable session_close : nat → World → Settle unit * World.
(** What the coroutines scheduled on [queen] do to the instance and to the
    world until all of them are done. *)
Variable scheduled : State → State * list event.

(** The class attributes of an [Ant] subclass, and its [run] method. *)
Record Ant : Type := mkAnt {
  ant_name : string;
  response_pipelines : list Pipeline;
  request_pipelines : list Pipeline;
  item_pipelines : list Pipeline;
  request_timeout : option Z;
  request_retries : Z;
  request_retry_delay : Z;
  request_proxy : option string;
  request_max_redirects : Z;
  request_allow_redirects : bool;
  run : M unit
}.

Definition set_request_timeout (t : option Z) (self : Ant) : Ant :=
  mkAnt (ant_name self) (response_pipelines self) (request_pipelines self)
        (item_pipelines self) t (request_retries self) (request_retry_delay self)
        (request_proxy self) (request_max_redirects self)
        (request_allow_redirects self) (run self).

Definition PROXY_AUTHORIZATION : string := "Proxy-Authorization".

(** ** Session pool: lines 152-159 of [_request] *)

Definition acquire_session (host : option string)
    (cookies : option (gmap string string)) : M nat :=
  cached <- gets sessions ;;
  match dict_get host cached with
  | None =>
      sid <- gets (λ st, length (heap st)) ;;
      emit (EvSessionNew sid cookies) ;;
      modify (λ st, set_heap (heap st ++ [ClientSession cookies]) st) ;;
      modify (λ st, set_sessions (dict_set host sid (sessions st)) st) ;;
      ret sid
  | Some sid =>
      match cookies with
      | Some c => modify (λ st, set_heap (alter (update_cookies c) sid (heap st)) st)
      | None => ret tt
      end ;;
      ret sid
  end.

Definition _convert_response (aio_response : ClientResponse) (request : Request) : Response :=
  {| res_request := request;
     res_status := aio_status aio_response;
     res_content := aio_content aio_response;
     res_headers := aio_headers aio_response;
     res_cookies := aio_cookies aio_response;
     res_encoding := aio_encoding aio_response |}.

(** [_request]; anything but a [Request] has no [__slots__].  The headers
    passed on are a value of their own: the write of the proxy header into
    the dictionary of the request is not kept in the request. *)
Definition _request (self : Ant) (thing : value) : M Response :=
  match thing with
  | VRequest req =>
      let cookies := req_cookies req in
      let headers :=
        match request_proxy self with
        | None => req_headers req
        | Some proxy =>
            match url_user proxy with
            | None => req_headers req
            | Some _ =>
                Some (<[PROXY_AUTHORIZATION := basic_auth proxy]>
                        (default ∅ (req_headers req)))
            end
        end in
      let kwargs :=
        {| kw_url := req_url req; kw_method := req_method req;
           kw_params := req_params req; kw_headers := headers;
           kw_data := req_data req; kw_proxy := request_proxy self;
           kw_max_redirects := request_max_redirects self;
           kw_allow_redirects := request_allow_redirects self |} in
      session <- acquire_session (req_host req) cookies ;;
      emit (EvSessionRequest session kwargs) ;;
      obj <- call_world (session_request session kwargs) ;;
      aio_response <- match obj with
                      | Now r => lift_res r
                      | Later d r => await d r
                      end ;;
      ret (_convert_response aio_response req)
  | _ => raise AttributeError
  end.

(** ** Retry and timeout policy *)

(** Modelled from the spec: [queen.py] is not part of the sources; the
    wrapped call fails with a timeout error when it does not complete
    within [timeout]. *)
Definition timeout_wrapper {A B} (f : A → M B) (timeout : option Z) : A → M B :=
  λ a st,
    match f a st with
    | (r, st1, evs) =>
        if expired timeout (clock st1 - clock st)
        then (Raise TimeoutError, set_clock (clock st + Z.max 0 (default 0 timeout)) st1, evs)
        else (r, st1, evs)
    end.

(** The outcome of an attempt, kept as a value. *)
Definition attempt {A} (m : M A) : M (Res A) := λ st,
  match m st with
  | (r, st1, evs) => (Ok r, st1, evs)
  end.

(** [asyncio.sleep(delay)] *)
Definition sleep (delay : Z) : M unit :=
  emit (EvSleep delay) ;; modify (advance delay).

(** [retry_if_result(lambda res: res.status >= 500) | retry_if_exception_type()] *)
Definition should_retry (outcome : Res Response) : bool :=
  match outcome with
  | Ok res => 500 <=? res_status res
  | Raise _ => true
  end.

(** tenacity raises [RetryError] from the last attempt's exception. *)
Definition RetryError (last : Res Response) : exn :=
  match last with
  | Ok _ => Exn "RetryError" "" None
  | Raise e => Exn "RetryError" "" (Some e)
  end.

(** tenacity's call loop under [wait_fixed(delay)]; [budget] is the number
    of attempts that [stop_after_attempt] still allows after this one. *)
Fixpoint retrying (delay : Z) (budget : nat) (fn : M Response) : M Response :=
  outcome <- attempt fn ;;
  if should_retry outcome then
    match budget with
    | O => raise (RetryError outcome)
    | S budget => sleep delay ;; retrying delay budget fn
    end
  else lift_res outcome.

(** [stop_after_attempt(retries + 1)] leaves [retries] attempts after the
    first one, none when [retries + 1 <= 1]. *)
Definition make_retry_decorator (retries : Z) (delay : Z)
    (fn : value → M Response) : value → M Response :=
  λ req, retrying delay (Z.to_nat retries) (fn req).

(** Lines 56-61 of [request]. *)
Definition send (self : Ant) (req : value) : M Response :=
  let request_function := timeout_wrapper (_request self) (request_timeout self) in
  let retries := request_retries self in
  if 0 <? retries
  then make_retry_decorator retries (request_retry_delay self) request_function req
  else request_function req.

Definition request (self : Ant) (req : Request) : M value :=
  req <- _handle_thing_with_pipelines (VRequest req) (request_pipelines self)
           (request_timeout self) ;;
  report req false ;;
  res <- send self req ;;
  res <- _handle_thing_with_pipelines (VResponse res) (response_pipelines self)
           (request_timeout self) ;;
  report res false ;;
  ret res.

Definition collect (self : Ant) (item : value) : M unit :=
  log DEBUG (MsgCollectItem item) ;;
  _handle_thing_with_pipelines item (item_pipelines self) DEFAULT_TIMEOUT ;;
  report item false.

(** ** Lifecycle *)

Fixpoint for_each {A} (l : list A) (body : A → M unit) : M unit :=
  match l with
  | [] => ret tt
  | x :: rest => body x ;; for_each rest body
  end.

(** [obj = hook(); if isinstance(obj, Coroutine): await obj] *)
Definition call_hook (hook : World → Settle unit * World) : M unit :=
  obj <- call_world hook ;;
  match obj with
  | Now r => lift_res r
  | Later d r => await d r
  end.

(** [itertools.chain(self.item_pipelines, self.response_pipelines,
    self.request_pipelines)] *)
Definition all_pipelines (self : Ant) : list Pipeline :=
  item_pipelines self ++ response_pipelines self ++ request_pipelines self.

Definition open (self : Ant) : M unit :=
  log INFO MsgOpening ;;
  for_each (all_pipelines self) (λ pipeline,
    try_except
      (emit (EvSpiderOpen (pl_name pipeline)) ;;
       call_hook (on_spider_open pipeline))
      (λ e, log EXCEPTION (MsgOpenPipelinesWith (exn_class e)))).

Definition close_session (sid : nat) : M unit :=
  emit (EvSessionClose sid) ;;
  call_hook (session_close sid) ;;
  modify (λ st, set_heap
    (alter (λ s, {| cookie_jar := cookie_jar s; closed := true |}) sid (heap st)) st).

Definition close (self : Ant) : M unit :=
  for_each (all_pipelines self) (λ pipeline,
    try_except
      (emit (EvSpiderClose (pl_name pipeline)) ;;
       call_hook (on_spider_close pipeline))
      (λ e, log EXCEPTION (MsgClosePipelinesWith (exn_class e)))) ;;
  cached <- gets sessions ;;
  for_each (dict_values cached) (λ session, close_session session) ;;
  log INFO MsgClosed.

(** Modelled from the spec: [queen.py] is not part of the sources;
    [queen.wait_scheduled_coroutines()] blocks until every previously
    scheduled task has finished. *)
Definition wait_scheduled_coroutines : M unit :=
  emit EvWaitScheduled ;;
  (λ st, let '(st1, evs) := scheduled st in (Ok tt, st1, evs)).

(** The two [for name, counts in ....items()] loops and the last line of
    [main]. *)
Definition total_report (self : Ant) : M unit :=
  reports <- gets _reports ;;
  for_each reports (λ '(name, c), log INFO (MsgGetTotal (snd c) name)) ;;
  drop_reports <- gets _drop_reports ;;
  for_each drop_reports (λ '(name, c), log INFO (MsgDropTotal (snd c) name)) ;;
  now <- gets clock ;;
  start_time <- gets _start_time ;;
  log INFO (MsgRunIn (ant_name self) (now - start_time)).

Definition main (self : Ant) : M unit :=
  open self ;;
  try_except (run self)
    (λ e, log EXCEPTION (MsgRunWith (exn_class e))) ;;
  wait_scheduled_coroutines ;;
  close self ;;
  wait_scheduled_coroutines ;;
  total_report self.
End Methods.

(** ** Observations on traces and states *)

(** The pipelines whose [process] was called, in call order. *)
Definition processed (evs : list event) : list string :=
  omap (λ ev, match ev with EvProcess p _ => Some p | _ => None end) evs.

(** The pipelines whose open hook was called, in call order. *)
Definition opened (evs : list event) : list string :=
  omap (λ ev, match ev with EvSpiderOpen p => Some p | _ => None end) evs.

(** The sessions whose [close] was called, in call order. *)
Definition sessions_closed (evs : list event) : list nat :=
  omap (λ ev, match ev with EvSessionClose sid => Some sid | _ => None end) evs.

(** The sessions on which the transport was called, in call order. *)
Definition sent (evs : list event) : list nat :=
  omap (λ ev, match ev with EvSessionRequest sid _ => Some sid | _ => None end) evs.

(** The delays slept, in order. *)
Definition slept (evs : list event) : list Z :=
  omap (λ ev, match ev with EvSleep d => Some d | _ => None end) evs.

(** What a call comes to: its result, awaited when it is a coroutine. *)
Definition settled {A : Type} (obj : Settle A) : Res A :=
  match obj with
  | Now r => r
  | Later _ r => r
  end.

(** An outcome after which the send is tried again: the attempt raised, or
    it returned a response with a status of 500 or more. *)
Definition retryable (outcome : Res Response) : Prop :=
  match outcome with
  | Ok res => 500 ≤ res_status res
  | Raise _ => True
  end.

Section Observations.
Context {World : Type}.
Abbreviation St := (@State World).

(** Two states that differ at most in the clock and the world: what a
    pipeline stage may change. *)
Definition same_instance (st st' : St) : Prop :=
  sessions st' = sessions st ∧ heap st' = heap st ∧
  _reports st' = _reports st ∧ _drop_reports st' = _drop_reports st ∧
  _start_time st' = _start_time st ∧ _last_time st' = _last_time st ∧
  _report_slot st' = _report_slot st.

(** A run of the stages [pipelines] from [thing] in which every stage
    gives a result that is not an exception instance: [final] is the last
    stage's result. *)
Inductive passes (timeout : option Z) :
    list (@Pipeline World) → value → St → value → St → list event → Prop :=
  | passes_nil thing st :
      passes timeout [] thing st thing st []
  | passes_cons p rest thing st out st1 evs1 final st2 evs2 :
      stage timeout p thing st = (Ok out, st1, evs1) →
      is_exception out = false →
      passes timeout rest out st1 final st2 evs2 →
      passes timeout (p :: rest) thing st final st2 (evs1 ++ evs2).

(** A run of consecutive calls of [fn], [delay] time-units of sleep
    between one and the next, with the outcome of each call. *)
Inductive attempts (delay : Z) (fn : @M World Response) :
    St → list (Res Response) → St → list event → Prop :=
  | attempts_last st r st1 evs :
      fn st = (r, st1, evs) →
      attempts delay fn st [r] st1 evs
  | attempts_again st r st1 evs rs st2 evs2 :
      fn st = (r, st1, evs) →
      attempts delay fn (advance delay st1) rs st2 evs2 →
      attempts delay fn st (r :: rs) st2 (evs ++ EvSleep delay :: evs2).

(** No two hosts of the cache name the same session object, and every
    cached name is a session of the heap. *)
Definition pool_wf (st : St) : Prop :=
  (∀ h1 h2 s1 s2,
      dict_get h1 (sessions st) = Some s1 →
      dict_get h2 (sessions st) = Some s2 →
      h1 ≠ h2 → s1 ≠ s2) ∧
  (∀ h s, dict_get h (sessions st) = Some s → (s < length (heap st))%nat).

(** What the open hooks of [pipelines] come to, called one after the other,
    each in the world the one before it left: returned or raised, awaited
    when the hook handed back a coroutine. *)
Fixpoint open_outcomes (pipelines : list (@Pipeline World)) (w : World) : list (Res unit) :=
  match pipelines with
  | [] => []
  | p :: rest =>
      let '(obj, w') := on_spider_open p w in
      settled obj :: open_outcomes rest w'
  end.

(** The calls of the open hooks of [pipelines], every hook that raised
    followed by the log of the class of its exception. *)
Definition open_trace (pipelines : list (@Pipeline World)) (outcomes : list (Res unit)) :
    list event :=
  concat (zip_with (λ p outcome,
            EvSpiderOpen (pl_name p) ::
            match outcome with
            | Ok _ => []
            | Raise e => [EvLog EXCEPTION (MsgOpenPipelinesWith (exn_class e))]
            end) pipelines outcomes).

(** The trace of the final summary of [main]. *)
Definition summary (self : @Ant World) (st : St) : list event :=
  map (λ '(name, c), EvLog INFO (MsgGetTotal (snd c) name)) (_reports st) ++
  map (λ '(name, c), EvLog INFO (MsgDropTotal (snd c) name)) (_drop_reports st) ++
  [EvLog INFO (MsgRunIn (ant_name self) (clock st - _start_time st))].
End Observations.

(** The pipelines whose close hook was called, in call order. *)
Definition hooks_closed (evs : list event) : list string :=
  omap (λ ev, match ev with EvSpiderClose p => Some p | _ => None end) evs.

(** The calls of the transport: the session and the keyword arguments. *)
Definition requested (evs : list event) : list (nat * Kwargs) :=
  omap (λ ev, match ev with EvSessionRequest sid kw => Some (sid, kw) | _ => None end) evs.

(** The exceptions logged, by class name, in order. *)
Definition logged_exceptions (evs : list event) : list log_msg :=
  omap (λ ev, match ev with EvLog EXCEPTION m => Some m | _ => None end) evs.

(** Every counter pair has a baseline between 0 and its total. *)
Definition counts_ok (d : counters) : Prop :=
  Forall (λ nc : string * counts, 0 ≤ nc.2.1 ≤ nc.2.2) d.

(** A call that does not raise, awaited or not. *)
Definition returns {A W : Type} (call : Settle A * W) : Prop :=
  match call.1 with
  | Now (Ok _) | Later _ (Ok _) => True
  | Now (Raise _) | Later _ (Raise _) => False
  end.

(** A closed session: [session.close()] has returned. *)
Definition mark_closed (s : Session) : Session :=
  {| cookie_jar := cookie_jar s; closed := true |}.

(** An error [x] that is a [ThingDropped] carrying the error [e]. *)
Definition ThingDropped_carrying (e x : exn) : Prop :=
  exn_class x = "ThingDropped" ∧ exn_cause x = Some e.

(** ** Concrete crawlers

    The world is the number of calls the transport has served. *)
Module Scenario.
Definition identity (name : string) : @Pipeline nat :=
  {| pl_name := name;
     process := λ thing w, (Now (Ok thing), w);
     on_spider_open := λ w, (Now (Ok tt), w);
     on_spider_close := λ w, (Now (Ok tt), w) |}.

Definition blocked : exn := Exn "ValueError" "blocked" None.

(** A stage that declines every thing. *)
Definition blocking (name : string) : @Pipeline nat :=
  {| pl_name := name;
     process := λ thing w, (Now (Ok (VException blocked)), w);
     on_spider_open := λ w, (Now (Ok tt), w);
     on_spider_close := λ w, (Now (Ok tt), w) |}.

(** A stage whose coroutine returns [None] after [d] time-units. *)
Definition to_none (name : string) (d : Z) : @Pipeline nat :=
  {| pl_name := name;
     process := λ thing w, (Later d (Ok VNone), w);
     on_spider_open := λ w, (Now (Ok tt), w);
     on_spider_close := λ w, (Now (Ok tt), w) |}.

(** A stage whose open hook raises. *)
Definition broken_open (name : string) : @Pipeline nat :=
  {| pl_name := name;
     process := λ thing w, (Now (Ok thing), w);
     on_spider_open := λ w, (Now (Raise (Exn "OSError" "disk" None)), w);
     on_spider_close := λ w, (Now (Ok tt), w) |}.

Definition a_request : Request :=
  {| req_url := "http://a.example/"; req_host := Some "a.example";
     req_method := "GET"; req_params := None; req_headers := None;
     req_cookies := Some {[ "sid" := "1" ]}; req_data := None |}.

Definition an_item : value := VItem [("title", "ant")].

Definition crawler (request_ps response_ps item_ps : list (@Pipeline nat))
    (retries : Z) (run : @M nat unit) : @Ant nat :=
  {| ant_name := "Crawler";
     response_pipelines := response_ps;
     request_pipelines := request_ps;
     item_pipelines := item_ps;
     request_timeout := Some 300;
     request_retries := retries;
     request_retry_delay := 5;
     request_proxy := None;
     request_max_redirects := 10;
     request_allow_redirects := true;
     run := run |}.

Definition st0 : @State nat := init 0 0%nat.

Definition page (status : Z) : ClientResponse :=
  {| aio_status := status; aio_content := "<html/>"; aio_headers := ∅;
     aio_cookies := ∅; aio_encoding := "utf-8" |}.

(** A server that answers 503 to its first two calls and 200 after. *)
Definition flaky (sid : nat) (kw : Kwargs) (w : nat) : Settle ClientResponse * nat :=
  (Later 1 (Ok (page (if (w <? 2)%nat then 503 else 200))), S w).

(** A server whose first answer takes longer than any timeout in use. *)
Definition slow_once (sid : nat) (kw : Kwargs) (w : nat) : Settle ClientResponse * nat :=
  (Later (if (w <? 1)%nat then 1000 else 1) (Ok (page 200)), S w).

Definition no_user (proxy : string) : option string := None.
Definition no_auth (proxy : string) : string := "".

Definition close_error : exn := Exn "OSError" "close" None.

(** Closing session 0 raises, closing any other session returns. *)
Definition first_close_fails (sid : nat) (w : nat) : Settle unit * nat :=
  match sid with
  | O => (Now (Raise close_error), w)
  | S _ => (Now (Ok tt), w)
  end.

Definition closes (sid : nat) (w : nat) : Settle unit * nat := (Now (Ok tt), w).

Definition nothing_scheduled (st : @State nat) : @State nat * list event := (st, []).

(** An instance that has served a request to each of two hosts. *)
Definition two_sessions : @State nat :=
  set_heap [ClientSession None; ClientSession None]
    (set_sessions [(Some "a.example", 0%nat); (Some "b.example", 1%nat)] st0).


Definition refused : exn := Exn "ClientConnectionError" "refused" None.

(** A server that refuses every connection. *)
Definition refusing (sid : nat) (kw : Kwargs) (w : nat) : Settle ClientResponse * nat :=
  (Now (Raise refused), S w).

(** A server that answers 200 after one time-unit. *)
Definition steady (sid : nat) (kw : Kwargs) (w : nat) : Settle ClientResponse * nat :=
  (Later 1 (Ok (page 200)), S w).

Definition plain_request : Request :=
  {| req_url := "http://b.example/"; req_host := Some "b.example";
     req_method := "GET"; req_params := None; req_headers := None;
     req_cookies := None; req_data := None |}.

(** An instance, 100 time-units after its last flush, that has delivered
    three items, one of them before that flush, and dropped two requests. *)
Definition busy : @State nat :=
  set_clock 100
    (set_reports [("Item", (1, 3))] (set_drop_reports [("Request", (0, 2))] st0)).
End Scenario.

(** ** Properties of the dictionaries *)

Section DictFacts.
Context {K V : Type} `{EqDecision K}.
Implicit Types (k : K) (v : V) (d : list (K * V)).

Lemma dict_get_set_eq k v d : dict_get k (dict_set k v d) = Some v.
Proof.
  induction d as [|[k' v'] d IH]; simpl.
  - by rewrite decide_True.
  - destruct (decide (k = k')) as [->|Hne]; simpl.
    + by rewrite decide_True.
    + by rewrite decide_False.
Qed.

Lemma dict_get_set_ne k k' v d :
  k ≠ k' → dict_get k' (dict_set k v d) = dict_get k' d.
Proof.
  intros Hne. induction d as [|[k0 v0] d IH]; simpl.
  - by rewrite decide_False.
  - destruct (decide (k = k0)) as [->|Hne0]; simpl.
    + by rewrite !decide_False.
    + destruct (decide (k' = k0)); done.
Qed.

Lemma dict_get_Some_values k v d : dict_get k d = Some v → v ∈ dict_values d.
Proof.
  unfold dict_values. induction d as [|[k0 v0] d IH]; simpl; [done|].
  destruct (decide (k = k0)).
  - intros [= ->]. apply list_elem_of_here.
  - intros H'. apply list_elem_of_further. auto.
Qed.
End DictFacts.

Lemma dict_get_rebaseline k (d : counters) :
  dict_get k (rebaseline d) = (λ c, (snd c, snd c)) <$> dict_get k d.
Proof.
  induction d as [|[k0 [b t]] d IH]; simpl; [done|].
  destruct (decide (k = k0)); done.
Qed.

Lemma total_of_rebaseline k d : total_of k (rebaseline d) = total_of k d.
Proof. unfold total_of. rewrite dict_get_rebaseline. by destruct (dict_get k d). Qed.

Lemma baseline_of_rebaseline k d : baseline_of k (rebaseline d) = total_of k d.
Proof.
  unfold total_of, baseline_of. rewrite dict_get_rebaseline.
  by destruct (dict_get k d).
Qed.

Lemma total_of_count_one k kind d :
  total_of k (count_one kind d) = total_of k d + (if decide (k = kind) then 1 else 0).
Proof.
  unfold count_one, defaultdict_getitem, total_of.
  destruct (dict_get kind d) as [[b t]|] eqn:Hget.
  - destruct (decide (k = kind)) as [->|Hne].
    + rewrite dict_get_set_eq, Hget. done.
    + rewrite dict_get_set_ne by done. lia.
  - destruct (decide (k = kind)) as [->|Hne].
    + rewrite dict_get_set_eq, Hget. done.
    + rewrite !dict_get_set_ne by done. lia.
Qed.

Lemma baseline_of_count_one k kind d :
  baseline_of k (count_one kind d) = baseline_of k d.
Proof.
  unfold count_one, defaultdict_getitem, baseline_of.
  destruct (dict_get kind d) as [[b t]|] eqn:Hget.
  - destruct (decide (k = kind)) as [->|Hne].
    + rewrite dict_get_set_eq, Hget. done.
    + by rewrite dict_get_set_ne.
  - destruct (decide (k = kind)) as [->|Hne].
    + rewrite dict_get_set_eq, Hget. done.
    + by rewrite !dict_get_set_ne.
Qed.

(** ** The reporter *)

Section ReportFacts.
Context {World : Type}.
Implicit Types (st : @State World).

(** The state and trace of [report], in closed form. *)
Lemma report_unfold thing dropped st :
  report thing dropped st =
    let due := _report_slot st <? clock st - _last_time st in
    let flushed :=
      if due then
        set_drop_reports (rebaseline (_drop_reports st))
          (set_reports (rebaseline (_reports st)) (set_last_time (clock st) st))
      else st in
    (Ok tt,
     (if dropped
      then set_drop_reports (count_one (class_name thing) (_drop_reports flushed)) flushed
      else set_reports (count_one (class_name thing) (_reports flushed)) flushed),
     if due
     then flush_log MsgGetRate (_report_slot st) (_reports st) ++
          flush_log MsgDropRate (_report_slot st) (_drop_reports st)
     else []).
Proof.
  unfold report, bind, gets, modify, ret, flush_counters. simpl.
  destruct (_report_slot st <? clock st - _last_time st); simpl;
    destruct dropped; simpl; rewrite ?app_nil_r; reflexivity.
Qed.

Lemma report_returns thing dropped st :
  (report thing dropped st).1.1 = Ok tt.
Proof. by rewrite report_unfold. Qed.

(** What [report] does to the totals. *)
Lemma report_totals thing dropped st :
  ∃ st',
    report thing dropped st =
      (Ok tt, st',
       if _report_slot st <? clock st - _last_time st
       then flush_log MsgGetRate (_report_slot st) (_reports st) ++
            flush_log MsgDropRate (_report_slot st) (_drop_reports st)
       else []) ∧
    (∀ k, total_of k (_reports st') =
            total_of k (_reports st) +
            (if decide (dropped = false ∧ k = class_name thing) then 1 else 0)) ∧
    (∀ k, total_of k (_drop_reports st') =
            total_of k (_drop_reports st) +
            (if decide (dropped = true ∧ k = class_name thing) then 1 else 0)).
Proof.
  rewrite report_unfold. cbv zeta. eexists. split; [reflexivity|].
  destruct (_report_slot st <? clock st - _last_time st), dropped; simpl;
    split; intros;
    rewrite ?total_of_count_one, ?total_of_rebaseline;
    repeat case_decide; try reflexivity; try lia;
    exfalso; intuition congruence.
Qed.

(** C8: every call of [report] first checks the clock.  When more than
    [_report_slot] (60 on a new instance) has passed since the last flush,
    it logs, for every kind of [_reports] and then for every kind of
    [_drop_reports], the running total and the count since the last flush,
    moves every baseline to the total and the last-flush time to now;
    otherwise it logs nothing and moves no baseline.  In both cases no
    running total goes down: the total of the reported kind in the chosen
    dictionary goes up by one and every other total stays. *)
Theorem report_flushes_and_keeps_totals thing dropped st :
  _report_slot (init (clock st) (world st)) = 60 ∧
  ∃ st',
    report thing dropped st =
      (Ok tt, st',
       if _report_slot st <? clock st - _last_time st
       then map (λ '(name, (b, t)),
                   EvLog INFO (MsgGetRate t name (t - b) (_report_slot st)))
                (_reports st) ++
            map (λ '(name, (b, t)),
                   EvLog INFO (MsgDropRate t name (t - b) (_report_slot st)))
                (_drop_reports st)
       else []) ∧
    (if _report_slot st <? clock st - _last_time st
     then _last_time st' = clock st ∧
          (∀ k, baseline_of k (_reports st') = total_of k (_reports st)) ∧
          (∀ k, baseline_of k (_drop_reports st') = total_of k (_drop_reports st))
     else _last_time st' = _last_time st ∧
          (∀ k, baseline_of k (_reports st') = baseline_of k (_reports st)) ∧
          (∀ k, baseline_of k (_drop_reports st') = baseline_of k (_drop_reports st))) ∧
    (∀ k, total_of k (_reports st') =
            total_of k (_reports st) +
            (if decide (dropped = false ∧ k = class_name thing) then 1 else 0)) ∧
    (∀ k, total_of k (_drop_reports st') =
            total_of k (_drop_reports st) +
            (if decide (dropped = true ∧ k = class_name thing) then 1 else 0)) ∧
    (∀ k, total_of k (_reports st) ≤ total_of k (_reports st')) ∧
    (∀ k, total_of k (_drop_reports st) ≤ total_of k (_drop_reports st')).
Proof.
  split; [reflexivity|].
  rewrite report_unfold. cbv zeta. eexists. split; [reflexivity|].
  destruct (_report_slot st <? clock st - _last_time st), dropped; simpl;
    repeat split; intros;
    rewrite ?baseline_of_count_one, ?total_of_count_one,
      ?baseline_of_rebaseline, ?total_of_rebaseline;
    repeat case_decide; try reflexivity; try lia;
    exfalso; intuition congruence.
Qed.
End ReportFacts.

(** ** The pipeline runner *)

Section RunnerFacts.
Context {World : Type}.
Implicit Types (st : @State World) (p : @Pipeline World)
  (pipelines pre post : list (@Pipeline World)) (thing raw out : value).

Lemma same_instance_refl st : same_instance st st.
Proof. by repeat split. Qed.

Lemma same_instance_trans st1 st2 st3 :
  same_instance st1 st2 → same_instance st2 st3 → same_instance st1 st3.
Proof. unfold same_instance. intuition congruence. Qed.

(** A stage calls [process] once, and leaves the instance alone. *)
Lemma stage_inv timeout p thing st r st' evs :
  stage timeout p thing st = (r, st', evs) →
  evs = [EvProcess (pl_name p) thing] ∧ same_instance st st'.
Proof.
  unfold stage, bind, emit, call_world, lift_res, await_within. simpl.
  destruct (process p thing (world st)) as [[rr|d rr] w]; simpl.
  - destruct rr; intros [= <- <- <-]; by repeat split.
  - destruct (expired timeout d), rr; intros [= <- <- <-]; by repeat split.
Qed.

Lemma pipeline_loop_app raw timeout pre post thing st :
  pipeline_loop raw timeout (pre ++ post) thing st =
    match pipeline_loop raw timeout pre thing st with
    | (Ok out, st1, evs1) =>
        match pipeline_loop raw timeout post out st1 with
        | (r, st2, evs2) => (r, st2, evs1 ++ evs2)
        end
    | (Raise e, st1, evs1) => (Raise e, st1, evs1)
    end.
Proof.
  revert thing st. induction pre as [|p pre IH]; intros thing st; simpl.
  - unfold ret. by destruct (pipeline_loop raw timeout post thing st) as [[r st2] evs2].
  - unfold bind at 1 3.
    destruct (stage timeout p thing st) as [[[out|e] st1] evs1]; [|done].
    assert (Hrest :
      (let '(r, st2, evs2) := pipeline_loop raw timeout (pre ++ post) out st1 in
       (r, st2, evs1 ++ evs2)) =
      match
        (let '(r, st2, evs2) := pipeline_loop raw timeout pre out st1 in
         (r, st2, evs1 ++ evs2))
      with
      | (Ok out', st2, evs2) =>
          let '(r, st3, evs3) := pipeline_loop raw timeout post out' st2 in
          (r, st3, evs2 ++ evs3)
      | (Raise e, st2, evs2) => (Raise e, st2, evs2)
      end).
    { rewrite IH.
      destruct (pipeline_loop raw timeout pre out st1) as [[[out'|e] st2] evs2]; [|done].
      destruct (pipeline_loop raw timeout post out' st2) as [[r st3] evs3].
      by rewrite app_assoc. }
    destruct out; try exact Hrest.
    unfold bind, raise.
    by destruct (report raw true st1) as [[[[]|e'] st2] evs2].
Qed.

(** A run that returns called every stage, in order, and recorded
    nothing. *)
Lemma pipeline_loop_Ok raw timeout pipelines thing st out st' evs :
  pipeline_loop raw timeout pipelines thing st = (Ok out, st', evs) →
  processed evs = map pl_name pipelines ∧ same_instance st st'.
Proof.
  revert thing st evs. induction pipelines as [|p rest IH]; intros thing st evs; simpl.
  - intros [= <- <- <-]. split; [done | apply same_instance_refl].
  - unfold bind at 1.
    destruct (stage timeout p thing st) as [[[v|e] st1] evs1] eqn:Hstage; [|done].
    apply stage_inv in Hstage as [-> Hsame].
    assert (Hgo :
      (let '(r', st2, evs2) := pipeline_loop raw timeout rest v st1 in
       (r', st2, [EvProcess (pl_name p) thing] ++ evs2)) = (Ok out, st', evs) →
      processed evs = pl_name p :: map pl_name rest ∧ same_instance st st').
    { destruct (pipeline_loop raw timeout rest v st1) as [[r' st2] evs2] eqn:Hloop.
      intros [= -> <- <-]. apply IH in Hloop as [Hp Hs].
      split; [simpl; by rewrite <- Hp | by eapply same_instance_trans]. }
    destruct v; try apply Hgo.
    unfold bind, raise.
    pose proof (report_returns raw true st1) as Hr.
    by destruct (report raw true st1) as [[r st2] evs2]; simpl in Hr; subst r.
Qed.

(** A passing run is what the loop computes. *)
Lemma passes_loop raw timeout pipelines thing st final st' evs :
  passes timeout pipelines thing st final st' evs →
  pipeline_loop raw timeout pipelines thing st = (Ok final, st', evs).
Proof.
  induction 1 as [|p rest thing st out st1 evs1 final st2 evs2 Hstage Hout _ IH]; simpl.
  - done.
  - unfold bind at 1. rewrite Hstage.
    destruct out; simpl in Hout; try discriminate; by rewrite IH.
Qed.

(** The loop at a stage whose result is an exception instance. *)
Lemma pipeline_loop_drop raw timeout p post thing st e st1 evs1 :
  stage timeout p thing st = (Ok (VException e), st1, evs1) →
  pipeline_loop raw timeout (p :: post) thing st =
    match report raw true st1 with
    | (_, st2, evs2) => (Raise e, st2, evs1 ++ evs2)
    end.
Proof.
  intros Hstage. simpl. unfold bind at 1. rewrite Hstage.
  unfold bind, raise.
  pose proof (report_returns raw true st1) as Hr.
  destruct (report raw true st1) as [[r st2] evs2]; simpl in Hr; subst r.
  by rewrite app_nil_r.
Qed.

Lemma handle_unfold thing pipelines timeout st :
  _handle_thing_with_pipelines thing pipelines timeout st =
    match pipeline_loop thing timeout pipelines thing st with
    | (r, st', evs) => (r, st', EvLog DEBUG (MsgProcessThing thing) :: evs)
    end.
Proof. reflexivity. Qed.

(** The runner on a chain whose stage after [pre] gives an exception
    instance. *)
Lemma handle_drop raw timeout pre p post st v st1 evs1 e st2 evs2 :
  _handle_thing_with_pipelines raw pre timeout st = (Ok v, st1, evs1) →
  stage timeout p v st1 = (Ok (VException e), st2, evs2) →
  _handle_thing_with_pipelines raw (pre ++ p :: post) timeout st =
    match report raw true st2 with
    | (_, st3, evs3) => (Raise e, st3, evs1 ++ evs2 ++ evs3)
    end.
Proof.
  rewrite !handle_unfold. intros Hpre Hstage.
  rewrite pipeline_loop_app.
  destruct (pipeline_loop raw timeout pre raw st) as [[r st1'] evs1'].
  injection Hpre as -> -> <-.
  rewrite (pipeline_loop_drop _ _ _ _ _ _ _ _ _ Hstage).
  by destruct (report raw true st2) as [[r st3] evs3].
Qed.
End RunnerFacts.

Lemma processed_app evs1 evs2 : processed (evs1 ++ evs2) = processed evs1 ++ processed evs2.
Proof. apply omap_app. Qed.

Lemma processed_flush_log fmt slot d : processed (flush_log fmt slot d) = [].
Proof. induction d as [|[n [b t]] d IH]; simpl; done. Qed.

Section RunnerClaims.
Context {World : Type}.
Implicit Types (st : @State World) (p : @Pipeline World)
  (pre post : list (@Pipeline World)) (raw v : value).

(** C1: when the stages before stage k pass and the result of stage k is
    an exception instance [e], the runner raises [e], and so does any
    method that called it (the rest of [request] or [collect] is skipped);
    the stages called are exactly the first k, whatever follows them in
    the list; the dropped total of the kind of the original thing [raw]
    goes up by one, every other dropped total and every delivered total
    stays. *)
Theorem drop_stops_chain raw timeout pre p post st v st1 evs1 e st2 evs2 :
  _handle_thing_with_pipelines raw pre timeout st = (Ok v, st1, evs1) →
  stage timeout p v st1 = (Ok (VException e), st2, evs2) →
  ∃ st3 evs,
    _handle_thing_with_pipelines raw (pre ++ p :: post) timeout st = (Raise e, st3, evs) ∧
    (∀ B (rest_of_caller : value → @M World B),
        bind (_handle_thing_with_pipelines raw (pre ++ p :: post) timeout)
             rest_of_caller st = (Raise e, st3, evs)) ∧
    processed evs = map pl_name (pre ++ [p]) ∧
    (∀ k, total_of k (_drop_reports st3) =
            total_of k (_drop_reports st) +
            (if decide (k = class_name raw) then 1 else 0)) ∧
    (∀ k, total_of k (_reports st3) = total_of k (_reports st)).
Proof.
  intros Hpre Hstage.
  pose proof (handle_drop raw timeout pre p post st v st1 evs1 e st2 evs2 Hpre Hstage) as Hrun.
  rewrite handle_unfold in Hpre.
  destruct (pipeline_loop raw timeout pre raw st) as [[r0 st1'] evs0] eqn:Hloop.
  injection Hpre as -> -> <-.
  apply pipeline_loop_Ok in Hloop as [Hnames (_ & _ & Hrep & Hdrop & _)].
  apply stage_inv in Hstage as [-> (_ & _ & Hrep2 & Hdrop2 & _)].
  destruct (report_totals raw true st2) as (st3 & Hreport & Hget & Hdropped).
  rewrite Hreport in Hrun.
  eexists _, _. split; [exact Hrun|]. split; [|split; [|split]].
  - intros B k. unfold bind. by rewrite Hrun.
  - change (EvLog DEBUG (MsgProcessThing raw) :: evs0)
      with ([EvLog DEBUG (MsgProcessThing raw)] ++ evs0).
    rewrite !processed_app, map_app, Hnames. simpl. do 2 f_equal.
    destruct (_report_slot st2 <? clock st2 - _last_time st2); [|done].
    by rewrite processed_app, !processed_flush_log.
  - intros k. rewrite Hdropped, Hdrop2, Hdrop.
    repeat case_decide; try lia; exfalso; intuition congruence.
  - intros k. rewrite Hget, Hrep2, Hrep.
    repeat case_decide; try lia; exfalso; intuition congruence.
Qed.

(** C3, as the code has it: when the result of a stage is an exception
    instance [e], the error the runner fails with is [e] itself, as the
    stage gave it; it is of class ThingDropped exactly when [e] is. *)
Theorem drop_raises_stage_error raw timeout pre p post st v st1 evs1 e st2 evs2 :
  _handle_thing_with_pipelines raw pre timeout st = (Ok v, st1, evs1) →
  stage timeout p v st1 = (Ok (VException e), st2, evs2) →
  ∃ x,
    (_handle_thing_with_pipelines raw (pre ++ p :: post) timeout st).1.1 = Raise x ∧
    x = e ∧
    (exn_class x = "ThingDropped" ↔ exn_class e = "ThingDropped").
Proof.
  intros Hpre Hstage.
  rewrite (handle_drop raw timeout pre p post st v st1 evs1 e st2 evs2 Hpre Hstage).
  destruct (report raw true st2) as [[r st3] evs3]. by exists e.
Qed.

(** C9: after stages whose results are not exception instances ([None]
    is one such result), the chain goes on: the remaining stages run from
    the last result.  When no stage is left, that last result is what the
    runner returns; every stage was called, in order, and no counter,
    dropped or delivered, was touched. *)
Theorem non_exception_results_pass raw timeout pre post st v st1 evs1 :
  passes timeout pre raw st v st1 evs1 →
  is_exception VNone = false ∧
  _handle_thing_with_pipelines raw pre timeout st =
    (Ok v, st1, EvLog DEBUG (MsgProcessThing raw) :: evs1) ∧
  processed evs1 = map pl_name pre ∧
  _drop_reports st1 = _drop_reports st ∧
  _reports st1 = _reports st ∧
  _handle_thing_with_pipelines raw (pre ++ post) timeout st =
    match pipeline_loop raw timeout post v st1 with
    | (r, st2, evs2) => (r, st2, EvLog DEBUG (MsgProcessThing raw) :: evs1 ++ evs2)
    end.
Proof.
  intros Hpass. apply (passes_loop raw) in Hpass.
  split; [done|]. rewrite !handle_unfold, pipeline_loop_app, Hpass.
  apply pipeline_loop_Ok in Hpass as [Hnames (_ & _ & Hrep & Hdrop & _)].
  repeat split; try done.
  by destruct (pipeline_loop raw timeout post v st1) as [[r st2] evs2].
Qed.
End RunnerClaims.

(** ** Lifecycle: [open], [close], [main], [collect] *)

Lemma opened_app evs1 evs2 : opened (evs1 ++ evs2) = opened evs1 ++ opened evs2.
Proof. apply omap_app. Qed.

Section LifecycleFacts.
Context {World : Type}.
Variable DEFAULT_TIMEOUT : option Z.
Variable session_close : nat → World → Settle unit * World.
Variable scheduled : @State World → @State World * list event.
Implicit Types (st : @State World) (self : @Ant World).

Lemma bind_log {B} lv m (k : unit → @M World B) st :
  bind (log lv m) k st =
    match k tt st with
    | (r, st', evs) => (r, st', EvLog lv m :: evs)
    end.
Proof. reflexivity. Qed.

(** A hook called under [try ... except Exception] always returns; the
    trace is the call, followed by the logged exception if it raised. *)
Lemma guarded_hook ev hook (msg : string → log_msg) st :
  ∃ st' tail,
    try_except (emit ev ;; call_hook hook)
      (λ e, log EXCEPTION (msg (exn_class e))) st = (Ok tt, st', ev :: tail) ∧
    (tail = [] ∨ ∃ e, tail = [EvLog EXCEPTION (msg (exn_class e))]).
Proof.
  unfold try_except, call_hook, bind, emit, call_world, lift_res, await, log. simpl.
  destruct (hook (world st)) as [[[[]|e]|d [[]|e]] w]; simpl; eauto 10.
Qed.

Lemma open_hooks_run (pipelines : list (@Pipeline World)) st :
  ∃ st' evs,
    for_each pipelines (λ pipeline,
      try_except
        (emit (EvSpiderOpen (pl_name pipeline)) ;;
         call_hook (on_spider_open pipeline))
        (λ e, log EXCEPTION (MsgOpenPipelinesWith (exn_class e)))) st
      = (Ok tt, st', evs) ∧
    opened evs = map pl_name pipelines.
Proof.
  revert st. induction pipelines as [|p rest IH]; intros st; simpl.
  - by eexists _, _.
  - destruct (guarded_hook (EvSpiderOpen (pl_name p)) (on_spider_open p)
                MsgOpenPipelinesWith st) as (st1 & tail & Hhook & Htail).
    destruct (IH st1) as (st2 & evs2 & Hrest & Hnames).
    unfold bind at 1. rewrite Hhook, Hrest.
    eexists _, _. split; [reflexivity|].
    rewrite opened_app, Hnames.
    destruct Htail as [->|[e ->]]; done.
Qed.

Lemma open_returns self st : ∃ st' evs, open self st = (Ok tt, st', evs).
Proof.
  destruct (open_hooks_run (all_pipelines self) st) as (st' & evs & Hrun & _).
  unfold open. rewrite bind_log, Hrun. by eexists _, _.
Qed.

(** One guarded open hook: the call, and the log of the exception when the
    hook raised. *)
Lemma guarded_open_hook (p : @Pipeline World) st :
  ∃ st',
    try_except
      (emit (EvSpiderOpen (pl_name p)) ;; call_hook (on_spider_open p))
      (λ e, log EXCEPTION (MsgOpenPipelinesWith (exn_class e))) st =
      (Ok tt, st',
       EvSpiderOpen (pl_name p) ::
       match settled (on_spider_open p (world st)).1 with
       | Ok _ => []
       | Raise e => [EvLog EXCEPTION (MsgOpenPipelinesWith (exn_class e))]
       end) ∧
    world st' = (on_spider_open p (world st)).2.
Proof.
  unfold try_except, call_hook, bind, emit, call_world, lift_res, await, log. simpl.
  destruct (on_spider_open p (world st)) as [[[[]|e]|d [[]|e]] w]; simpl; by eexists.
Qed.

Lemma open_hooks_trace (pipelines : list (@Pipeline World)) st :
  ∃ st',
    for_each pipelines (λ pipeline,
      try_except
        (emit (EvSpiderOpen (pl_name pipeline)) ;;
         call_hook (on_spider_open pipeline))
        (λ e, log EXCEPTION (MsgOpenPipelinesWith (exn_class e)))) st
      = (Ok tt, st', open_trace pipelines (open_outcomes pipelines (world st))).
Proof.
  revert st. induction pipelines as [|p rest IH]; intros st; simpl.
  - by eexists.
  - destruct (guarded_open_hook p st) as (st1 & Hhook & Hworld).
    destruct (IH st1) as (st2 & Hrest).
    unfold bind at 1. rewrite Hhook, Hrest, Hworld.
    destruct (on_spider_open p (world st)) as [obj w]. simpl.
    by exists st2.
Qed.

(** C4, as the code has it: [open] always returns, and the open hooks it
    calls are those of all item pipelines, then all response pipelines,
    then all request pipelines, each list in its declared order; this
    holds whatever each hook does, so a hook that raises keeps no later
    hook from being called.  The whole trace is the log "Opening" and then,
    for each pipeline in that order, the call of its hook, followed by the
    log of the exception when the hook raised. *)
Theorem open_calls_every_hook self st :
  ∃ st' evs,
    open self st = (Ok tt, st', evs) ∧
    opened evs =
      map pl_name (item_pipelines self ++ response_pipelines self ++
                   request_pipelines self) ∧
    evs =
      EvLog INFO MsgOpening ::
      open_trace
        (item_pipelines self ++ response_pipelines self ++ request_pipelines self)
        (open_outcomes
           (item_pipelines self ++ response_pipelines self ++ request_pipelines self)
           (world st)).
Proof.
  destruct (open_hooks_run (all_pipelines self) st) as (st' & evs & Hrun & Hnames).
  destruct (open_hooks_trace (all_pipelines self) st) as (st'' & Htrace).
  rewrite Hrun in Htrace. injection Htrace as _ Hevs.
  unfold open. rewrite bind_log, Hrun.
  eexists _, _. split; [reflexivity|]. split; [done|]. by rewrite Hevs.
Qed.

Lemma for_each_log {A} (l : list A) lv (f : A → log_msg) st :
  for_each l (λ x, log lv (f x)) st = (Ok tt, st, map (λ x, EvLog lv (f x)) l).
Proof.
  induction l as [|x l IH]; simpl; [done|].
  by rewrite bind_log, IH.
Qed.

Lemma for_each_ext {A} (l : list A) (body body' : A → @M World unit) st :
  (∀ x, body x = body' x) → for_each l body st = for_each l body' st.
Proof.
  intros Hext. revert st. induction l as [|x l IH]; intros st; simpl; [done|].
  unfold bind. rewrite Hext. destruct (body' x st) as [[[[]|e] st1] evs1]; [|done].
  by rewrite IH.
Qed.

Lemma total_report_unfold self st :
  total_report self st = (Ok tt, st, summary self st).
Proof.
  unfold total_report, summary, bind, gets. simpl.
  rewrite (for_each_ext (_reports st) _
             (λ x, log INFO (let '(name, c) := x in MsgGetTotal (snd c) name)))
    by (by intros [? ?]).
  rewrite for_each_log. simpl.
  rewrite (for_each_ext (_drop_reports st) _
             (λ x, log INFO (let '(name, c) := x in MsgDropTotal (snd c) name)))
    by (by intros [? ?]).
  rewrite !for_each_log. simpl.
  do 2 f_equal; [|f_equal]; apply map_ext; by intros [? ?].
Qed.

(** [main], step by step. *)
Lemma main_unfold self st :
  main session_close scheduled self st =
    let '(_, st1, evs1) := open self st in
    let '(r2, st2, evs2) := run self st1 in
    let logged :=
      match r2 with
      | Ok _ => []
      | Raise e => [EvLog EXCEPTION (MsgRunWith (exn_class e))]
      end in
    let '(st3, evs3) := scheduled st2 in
    match close session_close self st3 with
    | (Ok _, st4, evs4) =>
        let '(st5, evs5) := scheduled st4 in
        (Ok tt, st5,
         evs1 ++ evs2 ++ logged ++ [EvWaitScheduled] ++ evs3 ++ evs4 ++
         [EvWaitScheduled] ++ evs5 ++ summary self st5)
    | (Raise e', st4, evs4) =>
        (Raise e', st4, evs1 ++ evs2 ++ logged ++ [EvWaitScheduled] ++ evs3 ++ evs4)
    end.
Proof.
  destruct (open_returns self st) as (st1 & evs1 & Hopen).
  unfold main, bind at 1. rewrite Hopen.
  unfold bind at 1, try_except.
  destruct (run self st1) as [[r2 st2] evs2].
  assert (Hrest : ∀ mid,
    (let '(r, st', evs') :=
       (wait_scheduled_coroutines scheduled ;;
        close session_close self ;;
        wait_scheduled_coroutines scheduled ;;
        total_report self) st2 in
     (r, st', evs1 ++ (evs2 ++ mid) ++ evs') : Res unit * State * list event) =
    let '(st3, evs3) := scheduled st2 in
    match close session_close self st3 with
    | (Ok _, st4, evs4) =>
        let '(st5, evs5) := scheduled st4 in
        (Ok tt, st5,
         evs1 ++ evs2 ++ mid ++ [EvWaitScheduled] ++ evs3 ++ evs4 ++
         [EvWaitScheduled] ++ evs5 ++ summary self st5)
    | (Raise e', st4, evs4) =>
        (Raise e', st4, evs1 ++ evs2 ++ mid ++ [EvWaitScheduled] ++ evs3 ++ evs4)
    end).
  { intros mid.
    unfold bind at 1, wait_scheduled_coroutines at 1, bind at 1, emit at 1.
    destruct (scheduled st2) as [st3 evs3]. simpl.
    unfold bind at 1.
    destruct (close session_close self st3) as [[[[]|e'] st4] evs4];
      [|by rewrite <- (app_assoc evs2)].
    unfold bind at 1, wait_scheduled_coroutines at 1, bind at 1, emit at 1.
    destruct (scheduled st4) as [st5 evs5]. simpl.
    by rewrite total_report_unfold, <- (app_assoc evs2). }
  destruct r2 as [[]|e]; cbv zeta.
  - etrans; [|exact (Hrest [])]. rewrite app_nil_r.
    by destruct ((wait_scheduled_coroutines scheduled ;;
                  close session_close self ;;
                  wait_scheduled_coroutines scheduled ;;
                  total_report self) st2) as [[r st'] evs'].
  - etrans; [|exact (Hrest [EvLog EXCEPTION (MsgRunWith (exn_class e))])].
    unfold log, emit.
    by destruct ((wait_scheduled_coroutines scheduled ;;
                  close session_close self ;;
                  wait_scheduled_coroutines scheduled ;;
                  total_report self) st2) as [[r st'] evs'].
Qed.


End LifecycleFacts.

(** ** The session pool *)

Section SessionFacts.
Context {World : Type}.
Implicit Types (st : @State World) (host : option string)
  (cookies : option (gmap string string)).

(** The jar after [update_cookies]: a name of the new cookies has the new
    value, every other name keeps the value it had. *)
Lemma update_cookies_lookup (new : gmap string string) s name :
  cookie_jar (update_cookies new s) !! name =
    match new !! name with
    | Some v => Some v
    | None => cookie_jar s !! name
    end.
Proof.
  unfold update_cookies; simpl. rewrite lookup_union.
  by destruct (new !! name), (cookie_jar s !! name).
Qed.

Lemma ClientSession_lookup cookies name :
  cookie_jar (ClientSession cookies) !! name = cookies ≫= (.!! name).
Proof.
  destruct cookies as [c|]; simpl; [|done].
  rewrite lookup_union. by destruct (c !! name).
Qed.

(** A request to a host that has a session. *)
Lemma acquire_session_hit host cookies st sid :
  dict_get host (sessions st) = Some sid →
  acquire_session host cookies st =
    (Ok sid,
     match cookies with
     | Some c => set_heap (alter (update_cookies c) sid (heap st)) st
     | None => st
     end, []).
Proof.
  intros Hget. unfold acquire_session, bind, gets. simpl. rewrite Hget.
  by destruct cookies.
Qed.

(** The first request to a host. *)
Lemma acquire_session_miss host cookies st :
  dict_get host (sessions st) = None →
  acquire_session host cookies st =
    (Ok (length (heap st)),
     set_sessions (dict_set host (length (heap st)) (sessions st))
       (set_heap (heap st ++ [ClientSession cookies]) st),
     [EvSessionNew (length (heap st)) cookies]).
Proof.
  intros Hget. unfold acquire_session, bind, gets. simpl. by rewrite Hget.
Qed.

(** C6: with a pool in which no two hosts name the same session, a
    request to a host that has a session gets that session: no session is
    created, the cache is unchanged, and the cookies of the request, when
    it has some, are merged into the jar of that session, a name of the
    request taking the request's value and every other name keeping its
    own; a request to a host that has none gets a new session, seeded with
    the cookies of the request and cached under the host.  In both cases
    the session is cached under no other host, and the pool still has no
    session under two hosts. *)
Theorem session_per_host host cookies st :
  pool_wf st →
  ∃ sid st' evs,
    acquire_session host cookies st = (Ok sid, st', evs) ∧
    match dict_get host (sessions st) with
    | Some cached =>
        sid = cached ∧ evs = [] ∧
        sessions st' = sessions st ∧
        length (heap st') = length (heap st) ∧
        (∀ other, other ≠ sid → heap st' !! other = heap st !! other) ∧
        (∀ s, heap st !! sid = Some s →
           ∃ s', heap st' !! sid = Some s' ∧
             closed s' = closed s ∧
             ∀ name,
               cookie_jar s' !! name =
                 match cookies ≫= (.!! name) with
                 | Some v => Some v
                 | None => cookie_jar s !! name
                 end)
    | None =>
        sid = length (heap st) ∧ evs = [EvSessionNew sid cookies] ∧
        (∀ h, h ≠ host → dict_get h (sessions st') = dict_get h (sessions st)) ∧
        heap st' = heap st ++ [ClientSession cookies] ∧
        heap st' !! sid = Some (ClientSession cookies) ∧
        (∀ name, cookie_jar (ClientSession cookies) !! name = cookies ≫= (.!! name))
    end ∧
    dict_get host (sessions st') = Some sid ∧
    (∀ h s, h ≠ host → dict_get h (sessions st') = Some s → s ≠ sid) ∧
    pool_wf st'.
Proof.
  intros [Hinj Hbound].
  destruct (dict_get host (sessions st)) as [cached|] eqn:Hget.
  - rewrite (acquire_session_hit _ _ _ _ Hget).
    eexists _, _, _. split; [reflexivity|].
    assert (Hsess : sessions (match cookies with
              | Some c => set_heap (alter (update_cookies c) cached (heap st)) st
              | None => st end) = sessions st) by by destruct cookies.
    assert (Hlen : length (heap (match cookies with
              | Some c => set_heap (alter (update_cookies c) cached (heap st)) st
              | None => st end)) = length (heap st)).
    { destruct cookies; simpl; [apply length_alter | done]. }
    split; [|split; [|split]].
    + repeat split; try done.
      * intros other Hne. destruct cookies; simpl; [|done].
        by apply list_lookup_alter_ne.
      * intros s Hs. destruct cookies as [c|]; simpl.
        -- exists (update_cookies c s). rewrite list_lookup_alter_eq, Hs.
           repeat split; try done. intros name. apply update_cookies_lookup.
        -- by exists s.
    + by rewrite Hsess.
    + rewrite Hsess. intros h s Hne Hh. by apply (Hinj h host s cached).
    + split; rewrite ?Hsess, ?Hlen; done.
  - rewrite (acquire_session_miss _ _ _ Hget).
    eexists _, _, _. split; [reflexivity|]. simpl.
    split; [|split; [|split]].
    + repeat split; try done.
      * intros h Hne. by apply dict_get_set_ne.
      * by apply list_lookup_middle.
      * apply ClientSession_lookup.
    + apply dict_get_set_eq.
    + intros h s Hne. rewrite dict_get_set_ne by done.
      intros Hh%Hbound. lia.
    + split; simpl.
      * intros h1 h2 s1 s2.
        destruct (decide (h1 = host)) as [->|Hne1], (decide (h2 = host)) as [->|Hne2];
          rewrite ?dict_get_set_eq, ?dict_get_set_ne by done; try done.
        -- intros [= <-] Hh%Hbound _. lia.
        -- intros Hh%Hbound [= <-] _. lia.
        -- apply Hinj.
      * intros h s. rewrite length_app. simpl.
        destruct (decide (h = host)) as [->|Hne].
        -- rewrite dict_get_set_eq. intros [= <-]. lia.
        -- rewrite dict_get_set_ne by done. intros Hh%Hbound. lia.
Qed.

(** A new instance has an empty pool. *)
Lemma pool_wf_init now (w : World) : pool_wf (init now w).
Proof. split; intros *; simpl; done. Qed.
End SessionFacts.

(** ** The retrying send *)

Lemma should_retry_retryable outcome : should_retry outcome = true ↔ retryable outcome.
Proof.
  destruct outcome as [res|e]; simpl; [|done].
  by rewrite Z.leb_le.
Qed.

Lemma sent_app evs1 evs2 : sent (evs1 ++ evs2) = sent evs1 ++ sent evs2.
Proof. apply omap_app. Qed.

Section RetryFacts.
Context {World : Type}.
Variable url_user : string → option string.
Variable basic_auth : string → string.
Variable session_request : nat → Kwargs → World → Settle ClientResponse * World.
Implicit Types (st : @State World) (self : @Ant World) (fn : @M World Response).

Lemma retrying_unfold delay budget fn st :
  retrying delay budget fn st =
    match fn st with
    | (r, st1, evs1) =>
        if should_retry r then
          match budget with
          | O => (Raise (RetryError r), st1, evs1)
          | S budget =>
              match retrying delay budget fn (advance delay st1) with
              | (r2, st2, evs2) => (r2, st2, evs1 ++ EvSleep delay :: evs2)
              end
          end
        else (r, st1, evs1)
    end.
Proof.
  destruct budget; simpl; unfold bind at 1, attempt;
    destruct (fn st) as [[r st1] evs1];
    destruct (should_retry r); unfold raise, lift_res; rewrite ?app_nil_r; try done.
  unfold bind at 1, sleep, bind, emit, modify. simpl.
  by destruct (retrying delay budget fn (advance delay st1)) as [[r2 st2] evs2].
Qed.

(** What the call loop does: it calls [fn] again exactly after the
    outcomes that ask for a retry, as long as the budget lasts. *)
Lemma retrying_attempts delay budget fn st :
  ∃ earlier last_outcome st' evs,
    attempts delay fn st (earlier ++ [last_outcome]) st' evs ∧
    Forall retryable earlier ∧
    (length earlier ≤ budget)%nat ∧
    (retryable last_outcome →
       length earlier = budget ∧
       retrying delay budget fn st = (Raise (RetryError last_outcome), st', evs)) ∧
    (¬ retryable last_outcome →
       retrying delay budget fn st = (last_outcome, st', evs)).
Proof.
  revert st. induction budget as [|budget IH]; intros st;
    [pose proof (retrying_unfold delay 0 fn st) as Hunfold
    |pose proof (retrying_unfold delay (S budget) fn st) as Hunfold];
    destruct (fn st) as [[r st1] evs1] eqn:Hfn;
    destruct (should_retry r) eqn:Hretry.
  - exists [], r, st1, evs1. apply should_retry_retryable in Hretry.
    split_and!; try done. by constructor.
  - exists [], r, st1, evs1.
    assert (¬ retryable r) by (rewrite <- should_retry_retryable; congruence).
    split_and!; try done. by constructor.
  - destruct (IH (advance delay st1))
      as (earlier & last_outcome & st' & evs & Hatt & Hall & Hlen & Hyes & Hno).
    exists (r :: earlier), last_outcome, st', (evs1 ++ EvSleep delay :: evs).
    apply should_retry_retryable in Hretry.
    split_and!.
    + by eapply attempts_again.
    + by constructor.
    + simpl; lia.
    + intros [Heq Hres]%Hyes. split; [simpl; lia|]. by rewrite Hunfold, Hres.
    + intros Hres%Hno. by rewrite Hunfold, Hres.
  - exists [], r, st1, evs1.
    assert (¬ retryable r) by (rewrite <- should_retry_retryable; congruence).
    split_and!; try done; [by constructor | simpl; lia].
Qed.

(** [_request] on a request calls the transport once. *)
Lemma _request_sends_once self (req : Request) st :
  length (sent (_request url_user basic_auth session_request self (VRequest req) st).2) = 1%nat.
Proof.
  unfold _request. unfold bind at 1.
  destruct (dict_get (req_host req) (sessions st)) as [sid|] eqn:Hget.
  - rewrite (acquire_session_hit _ _ _ _ Hget).
    unfold bind, emit, call_world, lift_res, await. simpl.
    destruct (session_request _ _ _) as [[[aio|e]|d [aio|e]] w]; reflexivity.
  - rewrite (acquire_session_miss _ _ _ Hget).
    unfold bind, emit, call_world, lift_res, await. simpl.
    destruct (session_request _ _ _) as [[[aio|e]|d [aio|e]] w]; reflexivity.
Qed.

Lemma timeout_wrapper_events {A B} (f : A → @M World B) timeout a st :
  (timeout_wrapper f timeout a st).2 = (f a st).2.
Proof.
  unfold timeout_wrapper. destruct (f a st) as [[r st1] evs].
  by destruct (expired timeout (clock st1 - clock st)).
Qed.

Lemma attempts_sent delay fn st outcomes st' evs :
  (∀ st0, length (sent (fn st0).2) = 1%nat) →
  attempts delay fn st outcomes st' evs →
  length (sent evs) = length outcomes.
Proof.
  intros Hone. induction 1 as [st r st1 evs Hfn|st r st1 evs rs st2 evs2 Hfn _ IH].
  - specialize (Hone st). by rewrite Hfn in Hone.
  - specialize (Hone st). rewrite Hfn in Hone. simpl in Hone.
    rewrite sent_app, length_app, Hone.
    change (sent (EvSleep delay :: evs2)) with (sent evs2). simpl. by rewrite IH.
Qed.

(** C2: the send of [request] is a run of consecutive attempts in which
    every attempt but the last raised or gave a status of 500 or more (so a
    new attempt follows only such an outcome), with at most
    [request_retries + 1] attempts when [request_retries] is positive; the
    last attempt either asks for no retry, and is the result, or is
    attempt number [request_retries + 1], after which tenacity raises its
    RetryError.  When [request_retries] is not positive there is exactly
    one attempt and the send is the plain call of the timeout-wrapped
    [_request]: its outcome is returned or raised as it is.  For a request
    each attempt is one call of the transport. *)
Theorem send_retries_on_error_or_5xx self req st :
  let request_function :=
    timeout_wrapper (_request url_user basic_auth session_request self)
      (request_timeout self) in
  ∃ earlier last_outcome st' evs,
    attempts (request_retry_delay self) (request_function req) st
      (earlier ++ [last_outcome]) st' evs ∧
    Forall retryable earlier ∧
    (∀ r, req = VRequest r → length (sent evs) = length (earlier ++ [last_outcome])) ∧
    if 0 <? request_retries self then
      Z.of_nat (length (earlier ++ [last_outcome])) ≤ request_retries self + 1 ∧
      (retryable last_outcome →
         Z.of_nat (length (earlier ++ [last_outcome])) = request_retries self + 1 ∧
         send url_user basic_auth session_request self req st =
           (Raise (RetryError last_outcome), st', evs)) ∧
      (¬ retryable last_outcome →
         send url_user basic_auth session_request self req st = (last_outcome, st', evs))
    else
      earlier = [] ∧
      request_function req st = (last_outcome, st', evs) ∧
      send url_user basic_auth session_request self req st = (last_outcome, st', evs).
Proof.
  intros request_function.
  assert (Hsent : ∀ outcomes st' evs,
    attempts (request_retry_delay self) (request_function req) st outcomes st' evs →
    ∀ r, req = VRequest r → length (sent evs) = length outcomes).
  { intros outcomes st' evs Hatt r ->.
    eapply attempts_sent; [|exact Hatt].
    intros st0. unfold request_function.
    rewrite timeout_wrapper_events. apply _request_sends_once. }
  unfold send. fold request_function.
  destruct (0 <? request_retries self) eqn:Hpos.
  - apply Z.ltb_lt in Hpos. unfold make_retry_decorator.
    destruct (retrying_attempts (request_retry_delay self)
                (Z.to_nat (request_retries self)) (request_function req) st)
      as (earlier & last_outcome & st' & evs & Hatt & Hall & Hlen & Hyes & Hno).
    exists earlier, last_outcome, st', evs.
    split; [done|]. split; [done|]. split; [by eapply Hsent|].
    rewrite length_app. simpl. split; [lia|]. split.
    + intros [Heq Hres]%Hyes. split; [lia | done].
    + done.
  - destruct (request_function req st) as [[r st1] evs1] eqn:Hfn.
    exists [], r, st1, evs1.
    split; [by constructor|]. split; [done|].
    split; [eapply Hsent; by constructor | done].
Qed.
End RetryFacts.

(** ** The theorems at concrete crawlers *)

Section Witnesses.
Import Scenario.

(** A chain A, B, C whose stage B declines an item: C is never called and
    one Item is recorded as dropped. *)
Lemma drop_stops_chain_witness :
  ∃ st3 evs,
    _handle_thing_with_pipelines an_item
      [identity "A"; blocking "B"; identity "C"] None st0 = (Raise blocked, st3, evs) ∧
    processed evs = ["A"; "B"] ∧
    total_of "Item" (_drop_reports st3) = 1 ∧
    total_of "Item" (_reports st3) = 0.
Proof.
  destruct (drop_stops_chain an_item None [identity "A"] (blocking "B") [identity "C"]
              st0 _ _ _ blocked _ _ eq_refl eq_refl)
    as (st3 & evs & Hrun & _ & Hproc & Hdrop & Hget).
  exists st3, evs. split; [exact Hrun|]. split; [exact Hproc|].
  split; [rewrite Hdrop | rewrite Hget]; reflexivity.
Defined.

(** C3 fails on the code: the chain A, B whose stage B gives the error
    "blocked" makes the runner fail with that very ValueError, which is no
    ThingDropped and carries nothing. *)
Lemma drop_raises_ThingDropped_counterexample :
  ∃ st' evs,
    _handle_thing_with_pipelines an_item [identity "A"; blocking "B"] None st0 =
      (Raise blocked, st', evs) ∧
    ¬ ThingDropped_carrying blocked blocked.
Proof.
  eexists _, _. split; [reflexivity|].
  intros [Hclass _]. discriminate Hclass.
Defined.

Lemma drop_raises_stage_error_witness :
  ∃ x,
    (_handle_thing_with_pipelines an_item [identity "A"; blocking "B"] None st0).1.1 =
      Raise x ∧
    x = blocked ∧
    (exn_class x = "ThingDropped" ↔ exn_class blocked = "ThingDropped").
Proof.
  exact (drop_raises_stage_error an_item None [identity "A"] (blocking "B") []
           st0 _ _ _ blocked _ _ eq_refl eq_refl).
Defined.

(** A stage that returns [None] does not end the chain: the next stage is
    called with [None], and nothing is dropped. *)
Lemma non_exception_results_pass_witness :
  _handle_thing_with_pipelines an_item [to_none "N" 2; identity "A"] (Some 300) st0 =
    (Ok VNone, advance 2 st0,
     [EvLog DEBUG (MsgProcessThing an_item);
      EvProcess "N" an_item; EvProcess "A" VNone]) ∧
  _drop_reports (advance 2 st0) = _drop_reports st0.
Proof.
  assert (Hpass : passes (Some 300) [to_none "N" 2; identity "A"] an_item st0
                    VNone (advance 2 st0)
                    ([EvProcess "N" an_item] ++ [EvProcess "A" VNone] ++ [])).
  { eapply passes_cons; [reflexivity | reflexivity |].
    eapply passes_cons; [reflexivity | reflexivity |].
    apply passes_nil. }
  destruct (non_exception_results_pass an_item (Some 300)
              [to_none "N" 2; identity "A"] [] st0 _ _ _ Hpass)
    as (_ & Hrun & _ & Hdrop & _).
  split; [exact Hrun | exact Hdrop].
Defined.

(** C4 fails on the code: with a request pipeline A and an item pipeline
    B, [open] calls the hook of B before the hook of A. *)
Lemma open_request_first_counterexample :
  let self := crawler [identity "A"] [] [identity "B"] 3 (ret tt) in
  ∃ st' evs,
    open self st0 = (Ok tt, st', evs) ∧
    opened evs = ["B"; "A"] ∧
    opened evs ≠
      map pl_name (request_pipelines self ++ response_pipelines self ++
                   item_pipelines self).
Proof.
  eexists _, _. split; [reflexivity|]. split; [reflexivity|]. discriminate.
Defined.

(** A hook that raises is logged and the next hook is still called. *)
Example open_isolates_failures :
  (open (crawler [identity "A"] [] [broken_open "B"] 3 (ret tt)) st0).2 =
    [EvLog INFO MsgOpening;
     EvSpiderOpen "B"; EvLog EXCEPTION (MsgOpenPipelinesWith "OSError");
     EvSpiderOpen "A"].
Proof. reflexivity. Qed.

(** C5 fails on the code: with two cached sessions of which the first
    raises on [close], [close] raises that error right away; the second
    session is never closed. *)
Theorem close_stops_at_failing_session :
  ∃ st' evs,
    close first_close_fails (crawler [] [] [] 3 (ret tt)) two_sessions =
      (Raise close_error, st', evs) ∧
    sessions_closed evs = [0%nat] ∧
    closed <$> heap st' !! 1%nat = Some false.
Proof. eexists _, _. split; [reflexivity|]. split; reflexivity. Qed.

(** When no [close] raises, both sessions are closed. *)
Example close_closes_every_session :
  ∃ st' evs,
    close closes (crawler [] [] [] 3 (ret tt)) two_sessions = (Ok tt, st', evs) ∧
    sessions_closed evs = [0%nat; 1%nat] ∧
    closed <$> heap st' = [true; true].
Proof. eexists _, _. split; [reflexivity|]. split; reflexivity. Qed.

(** Two requests, one to each host, lead a new instance to [two_sessions]. *)
Example two_sessions_reachable :
  (bind (acquire_session (Some "a.example") None)
     (λ _, acquire_session (Some "b.example") None) st0).1.2 = two_sessions.
Proof. reflexivity. Qed.

(** A second request to a host reuses its session and merges its
    cookies. *)
Lemma session_per_host_witness :
  ∃ sid st' evs,
    acquire_session (Some "a.example") (Some {[ "lang" := "en" ]}) two_sessions =
      (Ok sid, st', evs) ∧
    sid = 0%nat ∧
    dict_get (Some "b.example") (sessions st') = Some 1%nat.
Proof.
  assert (Hwf : pool_wf two_sessions).
  { split.
    - intros h1 h2 s1 s2. simpl.
      repeat case_decide; intros; simplify_eq; done.
    - intros h s. simpl. repeat case_decide; intros; simplify_eq; lia. }
  destruct (session_per_host (Some "a.example") (Some {[ "lang" := "en" ]})
              two_sessions Hwf)
    as (sid & st' & evs & Hrun & Hcase & _ & _ & _).
  simpl in Hcase. destruct Hcase as (-> & _ & Hsess & _).
  exists 0%nat, st', evs. split; [exact Hrun|]. split; [reflexivity|].
  rewrite Hsess. reflexivity.
Defined.


End Witnesses.

(** ** The scenarios of the specification, run *)

(** Scenario A: request pipelines A (identity) and B (gives the error
    "blocked"): [request] raises "blocked", one Request is dropped, none is
    delivered. *)
Example scenario_blocked_request :
  let '(r, st, evs) :=
    request Scenario.no_user Scenario.no_auth Scenario.flaky
      (Scenario.crawler [Scenario.identity "A"; Scenario.blocking "B"] [] [] 3 (ret tt))
      Scenario.a_request Scenario.st0 in
  r = Raise Scenario.blocked ∧
  total_of "Request" (_drop_reports st) = 1 ∧
  total_of "Request" (_reports st) = 0 ∧
  sent evs = [].
Proof. vm_compute. by repeat split. Qed.

(** Scenario B: status 503 on attempts 1 and 2, 200 on attempt 3, three
    retries allowed: three calls of the transport, five time-units of sleep
    between them, and the response of status 200. *)
Example scenario_two_503_then_200 :
  let '(r, st, evs) :=
    send Scenario.no_user Scenario.no_auth Scenario.flaky
      (Scenario.crawler [] [] [] 3 (ret tt))
      (VRequest Scenario.a_request) Scenario.st0 in
  res_status <$> (match r with Ok res => Some res | Raise _ => None end) = Some 200 ∧
  sent evs = [0%nat; 0%nat; 0%nat] ∧
  slept evs = [5; 5].
Proof. vm_compute. by repeat split. Qed.

(** Scenario C: the first attempt exceeds the timeout, the second succeeds,
    one retry allowed: two calls of the transport and no error. *)
Example scenario_timeout_then_success :
  let '(r, st, evs) :=
    send Scenario.no_user Scenario.no_auth Scenario.slow_once
      (Scenario.crawler [] [] [] 1 (ret tt))
      (VRequest Scenario.a_request) Scenario.st0 in
  res_status <$> (match r with Ok res => Some res | Raise _ => None end) = Some 200 ∧
  sent evs = [0%nat; 0%nat].
Proof. vm_compute. by repeat split. Qed.

(** No retry allowed: one call of the transport, and its 503 response is
    returned as it is. *)
Example scenario_no_retry :
  let '(r, st, evs) :=
    send Scenario.no_user Scenario.no_auth Scenario.flaky
      (Scenario.crawler [] [] [] 0 (ret tt))
      (VRequest Scenario.a_request) Scenario.st0 in
  res_status <$> (match r with Ok res => Some res | Raise _ => None end) = Some 503 ∧
  sent evs = [0%nat].
Proof. vm_compute. by repeat split. Qed.

(** An item stage that takes 5 time-units finishes under the default
    timeout of 300 although the instance has a [request_timeout] of 1. *)
Example scenario_collect_ignores_request_timeout :
  let '(r, st, evs) :=
    collect (Some 300)
      (set_request_timeout (Some 1)
         (Scenario.crawler [] [] [Scenario.to_none "N" 5] 3 (ret tt)))
      Scenario.an_item Scenario.st0 in
  r = Ok tt ∧ total_of "Item" (_reports st) = 1 ∧ processed evs = ["N"].
Proof. vm_compute. by repeat split. Qed.

(** ** More on [close] and [open] *)

Lemma hooks_closed_app evs1 evs2 :
  hooks_closed (evs1 ++ evs2) = hooks_closed evs1 ++ hooks_closed evs2.
Proof. apply omap_app. Qed.

Lemma sessions_closed_app evs1 evs2 :
  sessions_closed (evs1 ++ evs2) = sessions_closed evs1 ++ sessions_closed evs2.
Proof. apply omap_app. Qed.

Section CloseFacts.
Context {World : Type}.
Variable session_close : nat → World → Settle unit * World.
Implicit Types (st : @State World) (self : @Ant World).

Lemma bind_run {A B} (m : @M World A) (k : A → @M World B) st :
  bind m k st =
    match m st with
    | (Ok a, st1, evs1) =>
        match k a st1 with
        | (r, st2, evs2) => (r, st2, evs1 ++ evs2)
        end
    | (Raise e, st1, evs1) => (Raise e, st1, evs1)
    end.
Proof. reflexivity. Qed.

(** A guarded hook changes at most the world and the clock. *)
Lemma guarded_hook_inv ev hook (msg : string → log_msg) st :
  ∃ st' tail,
    try_except (emit ev ;; call_hook hook)
      (λ e, log EXCEPTION (msg (exn_class e))) st = (Ok tt, st', ev :: tail) ∧
    (tail = [] ∨ ∃ e, tail = [EvLog EXCEPTION (msg (exn_class e))]) ∧
    same_instance st st'.
Proof.
  unfold try_except, call_hook, bind, emit, call_world, lift_res, await, log. simpl.
  destruct (hook (world st)) as [[[[]|e]|d [[]|e]] w]; simpl;
    eexists _, _; (split; [reflexivity|]); (split; [eauto|]); by repeat split.
Qed.

Lemma close_hooks_run (pipelines : list (@Pipeline World)) st :
  ∃ st' evs,
    for_each pipelines (λ pipeline,
      try_except
        (emit (EvSpiderClose (pl_name pipeline)) ;;
         call_hook (on_spider_close pipeline))
        (λ e, log EXCEPTION (MsgClosePipelinesWith (exn_class e)))) st
      = (Ok tt, st', evs) ∧
    hooks_closed evs = map pl_name pipelines ∧
    sessions_closed evs = [] ∧
    same_instance st st'.
Proof.
  revert st. induction pipelines as [|p rest IH]; intros st; simpl.
  - eexists _, _. split; [reflexivity|]. by repeat split.
  - destruct (guarded_hook_inv (EvSpiderClose (pl_name p)) (on_spider_close p)
                MsgClosePipelinesWith st) as (st1 & tail & Hhook & Htail & Hsame1).
    destruct (IH st1) as (st2 & evs2 & Hrest & Hnames & Hnone & Hsame2).
    rewrite bind_run, Hhook, Hrest.
    eexists _, _. split; [reflexivity|].
    rewrite hooks_closed_app, sessions_closed_app, Hnames, Hnone.
    split; [|split]; [| |by eapply same_instance_trans];
      destruct Htail as [->|[e ->]]; done.
Qed.

(** One [await session.close()]: the call is recorded, the cache is not
    touched, and the session is marked closed when the call returns. *)
Lemma close_session_run sid st :
  ∃ r st1,
    close_session session_close sid st = (r, st1, [EvSessionClose sid]) ∧
    sessions st1 = sessions st ∧
    match r with
    | Ok _ => heap st1 = alter mark_closed sid (heap st)
    | Raise _ => heap st1 = heap st
    end ∧
    (returns (session_close sid (world st)) → r = Ok tt).
Proof.
  unfold close_session, call_hook, bind, emit, call_world, lift_res, await, modify, returns.
  simpl. destruct (session_close sid (world st)) as [[[[]|e]|d [[]|e]] w]; simpl;
    eexists _, _; (split; [reflexivity|]); by repeat split.
Qed.

(** The session loop calls no pipeline hook and keeps the cache. *)
Lemma close_sessions_run (sids : list nat) st :
  ∃ r st' evs,
    for_each sids (λ session, close_session session_close session) st = (r, st', evs) ∧
    hooks_closed evs = [] ∧
    sessions st' = sessions st.
Proof.
  revert st. induction sids as [|sid rest IH]; intros st; simpl.
  - by eexists _, _, _.
  - destruct (close_session_run sid st) as (r & st1 & Hrun & Hsess & _ & _).
    rewrite bind_run, Hrun. destruct r as [[]|e].
    + destruct (IH st1) as (r2 & st2 & evs2 & Hrest & Hnone & Hsess2).
      rewrite Hrest. eexists _, _, _. split; [reflexivity|].
      split; [by rewrite hooks_closed_app, Hnone | congruence].
    + by eexists _, _, _.
Qed.

(** The session loop when no [close] raises. *)
Lemma close_sessions_all (sids : list nat) st :
  (∀ sid w, returns (session_close sid w)) →
  ∃ st' evs,
    for_each sids (λ session, close_session session_close session) st = (Ok tt, st', evs) ∧
    sessions_closed evs = sids ∧
    sessions st' = sessions st ∧
    (∀ sid s, heap st !! sid = Some s →
       heap st' !! sid = Some (if decide (sid ∈ sids) then mark_closed s else s)).
Proof.
  intros Hret. revert st. induction sids as [|sid rest IH]; intros st; simpl.
  - eexists _, _. split; [reflexivity|]. repeat split.
    by intros i s Hs.
  - destruct (close_session_run sid st) as (r & st1 & Hrun & Hsess & Hheap & Hok).
    rewrite (Hok (Hret _ _)) in *. clear Hok.
    destruct (IH st1) as (st2 & evs2 & Hrest & Hclosed & Hsess2 & Hheap2).
    rewrite bind_run, Hrun, Hrest.
    eexists _, _. split; [reflexivity|].
    split; [by rewrite sessions_closed_app, Hclosed|]. split; [congruence|].
    intros i s Hs.
    destruct (decide (i = sid)) as [->|Hne].
    + rewrite (Hheap2 sid (mark_closed s))
        by (by rewrite Hheap, list_lookup_alter_eq, Hs).
      rewrite (decide_True (P := sid ∈ sid :: rest)) by apply list_elem_of_here.
      by destruct (decide (sid ∈ rest)).
    + rewrite (Hheap2 i s) by (by rewrite Hheap, list_lookup_alter_ne).
      destruct (decide (i ∈ rest)) as [Hin|Hnin].
      * by rewrite decide_True by by apply list_elem_of_further.
      * rewrite decide_False; [done|]. by intros [?|?]%elem_of_cons.
Qed.

(** [close] from its two loops. *)
Lemma close_run self st st1 evs1 r st2 evs2 :
  for_each (all_pipelines self) (λ pipeline,
    try_except
      (emit (EvSpiderClose (pl_name pipeline)) ;;
       call_hook (on_spider_close pipeline))
      (λ e, log EXCEPTION (MsgClosePipelinesWith (exn_class e)))) st
    = (Ok tt, st1, evs1) →
  for_each (dict_values (sessions st1))
    (λ session, close_session session_close session) st1 = (r, st2, evs2) →
  close session_close self st =
    match r with
    | Ok _ => (Ok tt, st2, evs1 ++ evs2 ++ [EvLog INFO MsgClosed])
    | Raise e => (Raise e, st2, evs1 ++ evs2)
    end.
Proof.
  intros Hhooks Hloop.
  unfold close. rewrite bind_run, Hhooks. unfold gets at 1. rewrite bind_run.
  cbv beta iota. rewrite bind_run, Hloop.
  by destruct r as [[]|e].
Qed.

(** X1: whatever the close hooks and the sessions do, [close] first calls
    the close hook of every pipeline, item pipelines, then response
    pipelines, then request pipelines, each list in its declared order, and
    only then turns to the sessions; it never removes a session from the
    cache. *)
Theorem close_calls_every_hook_first self st :
  ∃ evs1 evs2,
    (close session_close self st).2 = evs1 ++ evs2 ∧
    hooks_closed evs1 =
      map pl_name (item_pipelines self ++ response_pipelines self ++
                   request_pipelines self) ∧
    sessions_closed evs1 = [] ∧
    hooks_closed evs2 = [] ∧
    sessions (close session_close self st).1.2 = sessions st.
Proof.
  destruct (close_hooks_run (all_pipelines self) st)
    as (st1 & evs1 & Hhooks & Hnames & Hnone & (Hsess & _)).
  destruct (close_sessions_run (dict_values (sessions st1)) st1)
    as (r & st2 & evs2 & Hloop & Hnohook & Hsess2).
  rewrite (close_run self st st1 evs1 r st2 evs2 Hhooks Hloop).
  destruct r as [[]|e]; simpl.
  - exists evs1, (evs2 ++ [EvLog INFO MsgClosed]).
    split; [done|]. split; [done|]. split; [done|].
    split; [by rewrite hooks_closed_app, Hnohook | congruence].
  - exists evs1, evs2.
    split; [done|]. split; [done|]. split; [done|]. split; [done | congruence].
Qed.

(** X2: when no [session.close()] raises, [close] returns; it has called
    [close] once on the session of every cached host, in the order of the
    cache, has logged "Closed" last, and every cached session is closed, its
    cookie jar as it was. *)
Theorem close_closes_all_sessions self st :
  (∀ sid w, returns (session_close sid w)) →
  ∃ st' evs,
    close session_close self st = (Ok tt, st', evs) ∧
    sessions_closed evs = dict_values (sessions st) ∧
    last evs = Some (EvLog INFO MsgClosed) ∧
    sessions st' = sessions st ∧
    (∀ host sid s,
       dict_get host (sessions st) = Some sid →
       heap st !! sid = Some s →
       heap st' !! sid = Some (mark_closed s)).
Proof.
  intros Hret.
  destruct (close_hooks_run (all_pipelines self) st)
    as (st1 & evs1 & Hhooks & Hnames & Hnone & (Hsess & Hheap & _)).
  destruct (close_sessions_all (dict_values (sessions st1)) st1 Hret)
    as (st2 & evs2 & Hloop & Hclosed & Hsess2 & Hheap2).
  rewrite (close_run self st st1 evs1 (Ok tt) st2 evs2 Hhooks Hloop).
  eexists _, _. split; [reflexivity|].
  split; [by rewrite !sessions_closed_app, Hnone, Hclosed, Hsess, app_nil_r|].
  split; [by rewrite !app_assoc, last_snoc|]. split; [congruence|].
  intros host sid s Hget Hs. rewrite (Hheap2 sid s) by congruence.
  rewrite decide_True; [done|]. rewrite Hsess. by eapply dict_get_Some_values.
Qed.
End CloseFacts.

(** ** More on the runner, [request] and [collect] *)

Lemma sent_flush_log fmt slot d : sent (flush_log fmt slot d) = [].
Proof. induction d as [|[n [b t]] d IH]; simpl; done. Qed.

Section RequestFacts.
Context {World : Type}.
Variable DEFAULT_TIMEOUT : option Z.
Variable url_user : string → option string.
Variable basic_auth : string → string.
Variable session_request : nat → Kwargs → World → Settle ClientResponse * World.
Implicit Types (st : @State World) (self : @Ant World) (p : @Pipeline World)
  (pre post pipelines : list (@Pipeline World)) (raw v thing : value).

(** [report] sends nothing and leaves the pool alone. *)
Lemma report_pool thing dropped st :
  sent (report thing dropped st).2 = [] ∧
  sessions (report thing dropped st).1.2 = sessions st ∧
  heap (report thing dropped st).1.2 = heap st.
Proof.
  rewrite report_unfold. cbv zeta. simpl.
  destruct (_report_slot st <? clock st - _last_time st), dropped; simpl;
    rewrite ?sent_app, ?sent_flush_log; done.
Qed.

(** The runner sends nothing and leaves the pool alone, whatever its
    outcome. *)
Lemma pipeline_loop_pool raw timeout pipelines thing st :
  sent (pipeline_loop raw timeout pipelines thing st).2 = [] ∧
  sessions (pipeline_loop raw timeout pipelines thing st).1.2 = sessions st ∧
  heap (pipeline_loop raw timeout pipelines thing st).1.2 = heap st.
Proof.
  revert thing st. induction pipelines as [|p rest IH]; intros thing st; simpl; [done|].
  rewrite bind_run.
  destruct (stage timeout p thing st) as [[[out|e] st1] evs1] eqn:Hstage;
    apply stage_inv in Hstage as [-> (Hsess & Hheap & _)]; [|done].
  assert (Hgo :
    sent (let '(r, st2, evs2) := pipeline_loop raw timeout rest out st1 in
          (r, st2, [EvProcess (pl_name p) thing] ++ evs2)).2 = [] ∧
    sessions (let '(r, st2, evs2) := pipeline_loop raw timeout rest out st1 in
              (r, st2, [EvProcess (pl_name p) thing] ++ evs2)).1.2 = sessions st ∧
    heap (let '(r, st2, evs2) := pipeline_loop raw timeout rest out st1 in
          (r, st2, [EvProcess (pl_name p) thing] ++ evs2)).1.2 = heap st).
  { destruct (IH out st1) as (Hs & Hse & Hh).
    destruct (pipeline_loop raw timeout rest out st1) as [[r st2] evs2].
    simpl in *. by rewrite Hs, Hse, Hh. }
  destruct out; try exact Hgo.
  rewrite bind_run.
  destruct (report_pool raw true st1) as (Hs & Hse & Hh).
  pose proof (report_returns raw true st1) as Hr.
  destruct (report raw true st1) as [[r st2] evs2]. simpl in *. subst r.
  unfold raise. simpl. rewrite app_nil_r, Hs, Hse, Hh. done.
Qed.

Lemma handle_pool thing timeout pipelines st :
  sent (_handle_thing_with_pipelines thing pipelines timeout st).2 = [] ∧
  sessions (_handle_thing_with_pipelines thing pipelines timeout st).1.2 = sessions st ∧
  heap (_handle_thing_with_pipelines thing pipelines timeout st).1.2 = heap st.
Proof.
  rewrite handle_unfold.
  destruct (pipeline_loop_pool thing timeout pipelines thing st) as (Hs & Hse & Hh).
  by destruct (pipeline_loop thing timeout pipelines thing st) as [[r st'] evs].
Qed.

(** X3: a stage that raises, rather than returns, an error (its [process]
    raises, the coroutine it returned raises, or that coroutine is still
    running when the timeout expires) makes the runner fail with that error
    after the stages up to it; no later stage is called and, unlike for a
    returned exception, nothing is recorded as dropped. *)
Theorem raising_stage_is_not_recorded raw timeout pre p post st v st1 evs1 e st2 evs2 :
  _handle_thing_with_pipelines raw pre timeout st = (Ok v, st1, evs1) →
  stage timeout p v st1 = (Raise e, st2, evs2) →
  _handle_thing_with_pipelines raw (pre ++ p :: post) timeout st =
    (Raise e, st2, evs1 ++ evs2) ∧
  processed (evs1 ++ evs2) = map pl_name (pre ++ [p]) ∧
  _drop_reports st2 = _drop_reports st ∧
  _reports st2 = _reports st.
Proof.
  rewrite !handle_unfold. intros Hpre Hstage.
  rewrite pipeline_loop_app.
  destruct (pipeline_loop raw timeout pre raw st) as [[r st1'] evs0] eqn:Hloop.
  injection Hpre as -> -> <-.
  apply pipeline_loop_Ok in Hloop as [Hnames (_ & _ & Hrep & Hdrop & _)].
  simpl pipeline_loop. rewrite bind_run, Hstage.
  apply stage_inv in Hstage as [-> (_ & _ & Hrep2 & Hdrop2 & _)].
  split; [done|]. split; [|split; congruence].
  change (EvLog DEBUG (MsgProcessThing raw) :: evs0)
    with ([EvLog DEBUG (MsgProcessThing raw)] ++ evs0).
  by rewrite !processed_app, map_app, Hnames.
Qed.

(** X4: a request that a request pipeline declines is never sent: [request]
    raises the stage's error, the transport is not called, no session is
    created or touched, one Request is recorded as dropped and none as
    delivered. *)
Theorem declined_request_is_never_sent self req pre p post st v st1 evs1 e st2 evs2 :
  request_pipelines self = pre ++ p :: post →
  _handle_thing_with_pipelines (VRequest req) pre (request_timeout self) st =
    (Ok v, st1, evs1) →
  stage (request_timeout self) p v st1 = (Ok (VException e), st2, evs2) →
  ∃ st3 evs,
    request url_user basic_auth session_request self req st = (Raise e, st3, evs) ∧
    sent evs = [] ∧
    sessions st3 = sessions st ∧
    heap st3 = heap st ∧
    total_of "Request" (_drop_reports st3) = total_of "Request" (_drop_reports st) + 1 ∧
    (∀ k, total_of k (_reports st3) = total_of k (_reports st)).
Proof.
  intros Hpipes Hpre Hstage.
  pose proof (handle_drop (VRequest req) (request_timeout self) pre p post
                st v st1 evs1 e st2 evs2 Hpre Hstage) as Hrun.
  rewrite <- Hpipes in Hrun.
  destruct (handle_pool (VRequest req) (request_timeout self)
              (request_pipelines self) st) as (Hsent & Hsess & Hheap).
  rewrite handle_unfold in Hpre.
  destruct (pipeline_loop (VRequest req) (request_timeout self) pre (VRequest req) st)
    as [[r0 st1'] evs0] eqn:Hloop.
  injection Hpre as -> -> <-.
  apply pipeline_loop_Ok in Hloop as [_ (_ & _ & Hrep & Hdrop & _)].
  apply stage_inv in Hstage as [-> (_ & _ & Hrep2 & Hdrop2 & _)].
  destruct (report_totals (VRequest req) true st2) as (st3 & Hreport & Hget & Hdropped).
  rewrite Hreport in Hrun. rewrite Hrun in Hsent, Hsess, Hheap. simpl in Hsent, Hsess, Hheap.
  unfold request. rewrite bind_run, Hrun.
  eexists _, _. split; [reflexivity|].
  split; [done|]. split; [done|]. split; [done|]. split.
  - rewrite Hdropped, Hdrop2, Hdrop.
    destruct (decide _) as [|Hd]; [done | exfalso; by apply Hd].
  - intros k. rewrite Hget, Hrep2, Hrep.
    destruct (decide _) as [[? _]|]; [done | lia].
Qed.

(** X5: [collect] counts the item it was given, not what the item pipelines
    made of it: when the runner returns, whatever value it returns,
    [collect] returns [None], the delivered total of the class of the
    original item goes up by one, and no other total changes. *)
Theorem collect_counts_the_original_item self item st v st1 evs1 :
  _handle_thing_with_pipelines item (item_pipelines self) DEFAULT_TIMEOUT st =
    (Ok v, st1, evs1) →
  ∃ st2 evs,
    collect DEFAULT_TIMEOUT self item st = (Ok tt, st2, evs) ∧
    (∀ k, total_of k (_reports st2) =
            total_of k (_reports st) + (if decide (k = class_name item) then 1 else 0)) ∧
    (∀ k, total_of k (_drop_reports st2) = total_of k (_drop_reports st)).
Proof.
  intros Hrun. unfold collect. rewrite bind_log, bind_run, Hrun.
  rewrite handle_unfold in Hrun.
  destruct (pipeline_loop item DEFAULT_TIMEOUT (item_pipelines self) item st)
    as [[r0 st1'] evs0] eqn:Hloop.
  injection Hrun as -> -> <-.
  apply pipeline_loop_Ok in Hloop as [_ (_ & _ & Hrep & Hdrop & _)].
  destruct (report_totals item false st1) as (st2 & Hreport & Hget & Hdropped).
  rewrite Hreport. eexists _, _. split; [reflexivity|]. split; intros k.
  - rewrite Hget, Hrep.
    destruct (decide (_ ∧ _)) as [[_ ?]|Hd], (decide (k = _)); try done.
    exfalso; by apply Hd.
  - rewrite Hdropped, Hdrop. destruct (decide _) as [[? _]|]; [done | lia].
Qed.
End RequestFacts.

(** ** More on the send *)

Lemma slept_app evs1 evs2 : slept (evs1 ++ evs2) = slept evs1 ++ slept evs2.
Proof. apply omap_app. Qed.

Section SendFacts.
Context {World : Type}.
Variable url_user : string → option string.
Variable basic_auth : string → string.
Variable session_request : nat → Kwargs → World → Settle ClientResponse * World.
Implicit Types (st : @State World) (self : @Ant World) (fn : @M World Response).

(** [_request] never sleeps and never touches the counters. *)
Lemma _request_counters self thing st :
  slept (_request url_user basic_auth session_request self thing st).2 = [] ∧
  _reports (_request url_user basic_auth session_request self thing st).1.2 = _reports st ∧
  _drop_reports (_request url_user basic_auth session_request self thing st).1.2 =
    _drop_reports st.
Proof.
  destruct thing as [req| | | | |]; try done.
  unfold _request. rewrite bind_run.
  destruct (dict_get (req_host req) (sessions st)) as [sid|] eqn:Hget.
  - rewrite (acquire_session_hit _ _ _ _ Hget).
    unfold bind, emit, call_world, lift_res, await. simpl.
    destruct (req_cookies req);
      destruct (session_request _ _ _) as [[[aio|e]|d [aio|e]] w]; done.
  - rewrite (acquire_session_miss _ _ _ Hget).
    unfold bind, emit, call_world, lift_res, await. simpl.
    destruct (session_request _ _ _) as [[[aio|e]|d [aio|e]] w]; done.
Qed.

Lemma timeout_wrapper_counters {A B} (f : A → @M World B) timeout a st :
  _reports (timeout_wrapper f timeout a st).1.2 = _reports (f a st).1.2 ∧
  _drop_reports (timeout_wrapper f timeout a st).1.2 = _drop_reports (f a st).1.2.
Proof.
  unfold timeout_wrapper. destruct (f a st) as [[r st1] evs].
  by destruct (expired timeout (clock st1 - clock st)).
Qed.

(** The call loop sleeps [delay] between two attempts, and at no other
    time, when the attempts themselves do not sleep. *)
Lemma retrying_run delay budget fn st :
  (∀ st0, slept (fn st0).2 = [] ∧
          length (sent (fn st0).2) = 1%nat ∧
          _reports (fn st0).1.2 = _reports st0 ∧
          _drop_reports (fn st0).1.2 = _drop_reports st0) →
  slept (retrying delay budget fn st).2 =
    replicate (length (sent (retrying delay budget fn st).2) - 1) delay ∧
  (1 ≤ length (sent (retrying delay budget fn st).2) ≤ S budget)%nat ∧
  _reports (retrying delay budget fn st).1.2 = _reports st ∧
  _drop_reports (retrying delay budget fn st).1.2 = _drop_reports st.
Proof.
  intros Hfn. revert st. induction budget as [|budget IH]; intros st;
    rewrite retrying_unfold; destruct (Hfn st) as (Hslept & Hsent & Hrep & Hdrop);
    destruct (fn st) as [[r st1] evs1]; simpl in *;
    destruct (should_retry r); simpl; rewrite ?Hslept, ?Hsent; try (split_and!; done || lia).
  destruct (IH (advance delay st1)) as (IHslept & IHsent & IHrep & IHdrop).
  destruct (retrying delay budget fn (advance delay st1)) as [[r2 st2] evs2].
  simpl in *. rewrite slept_app, sent_app, length_app, Hslept, Hsent.
  change (slept (EvSleep delay :: evs2)) with (delay :: slept evs2).
  change (sent (EvSleep delay :: evs2)) with (sent evs2).
  rewrite IHslept. simpl. split_and!; try lia; try congruence.
  destruct (length (sent evs2)) as [|n]; [lia|]. simpl. by rewrite Nat.sub_0_r.
Qed.

(** The send of a request: counters, calls and sleeps. *)
Lemma send_run self (req : Request) st :
  let out := send url_user basic_auth session_request self (VRequest req) st in
  slept out.2 = replicate (length (sent out.2) - 1) (request_retry_delay self) ∧
  (1 ≤ length (sent out.2))%nat ∧
  Z.of_nat (length (sent out.2)) ≤ Z.max 0 (request_retries self) + 1 ∧
  _reports out.1.2 = _reports st ∧
  _drop_reports out.1.2 = _drop_reports st.
Proof.
  assert (Hfn : ∀ st0,
    let fn := timeout_wrapper (_request url_user basic_auth session_request self)
                (request_timeout self) (VRequest req) in
    slept (fn st0).2 = [] ∧ length (sent (fn st0).2) = 1%nat ∧
    _reports (fn st0).1.2 = _reports st0 ∧ _drop_reports (fn st0).1.2 = _drop_reports st0).
  { intros st0. cbv zeta.
    destruct (_request_counters self (VRequest req) st0) as (Hs & Hr & Hd).
    destruct (timeout_wrapper_counters (_request url_user basic_auth session_request self)
                (request_timeout self) (VRequest req) st0) as (Hr' & Hd').
    rewrite timeout_wrapper_events, Hs, Hr', Hd', Hr, Hd.
    split_and!; try done. apply _request_sends_once. }
  cbv zeta. unfold send. destruct (0 <? request_retries self) eqn:Hpos.
  - apply Z.ltb_lt in Hpos. unfold make_retry_decorator.
    destruct (retrying_run (request_retry_delay self) (Z.to_nat (request_retries self))
                _ st Hfn) as (Hslept & Hsent & Hrep & Hdrop).
    split_and!; try done; lia.
  - apply Z.ltb_ge in Hpos. destruct (Hfn st) as (Hslept & Hsent & Hrep & Hdrop).
    cbv zeta in *. rewrite Hslept, Hsent. split_and!; try done; lia.
Qed.

(** X6: between two attempts of a send the method sleeps the configured
    [request_retry_delay], and it sleeps at no other time: the sleeps of a
    send are one fewer than its calls of the transport, each of that delay;
    the transport is called at least once and at most [request_retries + 1]
    times (once when [request_retries] is not positive). *)
Theorem send_sleeps_fixed_delay_between_attempts self (req : Request) st :
  let evs := (send url_user basic_auth session_request self (VRequest req) st).2 in
  slept evs = replicate (length (sent evs) - 1) (request_retry_delay self) ∧
  (1 ≤ length (sent evs))%nat ∧
  Z.of_nat (length (sent evs)) ≤ Z.max 0 (request_retries self) + 1.
Proof.
  destruct (send_run self req st) as (Hslept & Hmin & Hmax & _). by cbv zeta in *.
Qed.
End SendFacts.

Section RequestCounts.
Context {World : Type}.
Variable url_user : string → option string.
Variable basic_auth : string → string.
Variable session_request : nat → Kwargs → World → Settle ClientResponse * World.
Implicit Types (st : @State World) (self : @Ant World) (fn : @M World Response).

Lemma retrying_counters delay budget fn st :
  (∀ st0, _reports (fn st0).1.2 = _reports st0 ∧
          _drop_reports (fn st0).1.2 = _drop_reports st0) →
  _reports (retrying delay budget fn st).1.2 = _reports st ∧
  _drop_reports (retrying delay budget fn st).1.2 = _drop_reports st.
Proof.
  intros Hfn. revert st. induction budget as [|budget IH]; intros st;
    rewrite retrying_unfold; destruct (Hfn st) as (Hrep & Hdrop);
    destruct (fn st) as [[r st1] evs1]; simpl in *;
    destruct (should_retry r); simpl; try done.
  destruct (IH (advance delay st1)) as (IHrep & IHdrop).
  destruct (retrying delay budget fn (advance delay st1)) as [[r2 st2] evs2].
  simpl in *. split; congruence.
Qed.

(** The send never touches the counters, whatever it is given. *)
Lemma send_counters self v st :
  _reports (send url_user basic_auth session_request self v st).1.2 = _reports st ∧
  _drop_reports (send url_user basic_auth session_request self v st).1.2 = _drop_reports st.
Proof.
  assert (Hfn : ∀ st0,
    let fn := timeout_wrapper (_request url_user basic_auth session_request self)
                (request_timeout self) v in
    _reports (fn st0).1.2 = _reports st0 ∧ _drop_reports (fn st0).1.2 = _drop_reports st0).
  { intros st0. cbv zeta.
    destruct (_request_counters url_user basic_auth session_request self v st0)
      as (_ & Hr & Hd).
    destruct (timeout_wrapper_counters (_request url_user basic_auth session_request self)
                (request_timeout self) v st0) as (Hr' & Hd').
    by rewrite Hr', Hd', Hr, Hd. }
  unfold send. destruct (0 <? request_retries self); [|apply Hfn].
  by apply retrying_counters.
Qed.

(** X7: a send that fails after the request pipelines have passed makes
    [request] fail with the same error; by then the value the request
    pipelines returned has been counted as delivered under its class, and
    nothing else is counted: no Response, and no drop. *)
Theorem failed_send_still_counts_the_request self req st v st1 evs1 e st3 evs3 :
  _handle_thing_with_pipelines (VRequest req) (request_pipelines self)
    (request_timeout self) st = (Ok v, st1, evs1) →
  send url_user basic_auth session_request self v (report v false st1).1.2 =
    (Raise e, st3, evs3) →
  ∃ evs,
    request url_user basic_auth session_request self req st = (Raise e, st3, evs) ∧
    (∀ k, total_of k (_reports st3) =
            total_of k (_reports st) + (if decide (k = class_name v) then 1 else 0)) ∧
    (∀ k, total_of k (_drop_reports st3) = total_of k (_drop_reports st)).
Proof.
  intros Hpre Hsend.
  destruct (report_totals v false st1) as (st2 & Hreport & Hget & Hdropped).
  rewrite Hreport in Hsend. simpl in Hsend.
  destruct (send_counters self v st2) as (Hsrep & Hsdrop). rewrite Hsend in Hsrep, Hsdrop.
  simpl in Hsrep, Hsdrop.
  unfold request. rewrite bind_run, Hpre, bind_run, Hreport, bind_run, Hsend.
  rewrite handle_unfold in Hpre.
  destruct (pipeline_loop (VRequest req) (request_timeout self)
              (request_pipelines self) (VRequest req) st) as [[r0 st1'] evs0] eqn:Hloop.
  injection Hpre as -> -> <-.
  apply pipeline_loop_Ok in Hloop as [_ (_ & _ & Hrep & Hdrop & _)].
  eexists. split; [reflexivity|]. split; intros k.
  - rewrite Hsrep, Hget, Hrep.
    destruct (decide (_ ∧ _)) as [[_ ?]|Hd], (decide (k = _)); try done.
    exfalso; by apply Hd.
  - rewrite Hsdrop, Hdropped, Hdrop. destruct (decide _) as [[? _]|]; [done | lia].
Qed.

(** X8: when the request pipelines, the send and the response pipelines all
    pass, [request] returns what the response pipelines returned, and has
    counted as delivered exactly two things: the value the request pipelines
    returned and the value the response pipelines returned, each under its
    own class. *)
Theorem delivered_request_counts_both_outputs
    self req st v st1 evs1 res st3 evs3 out st4 evs4 :
  _handle_thing_with_pipelines (VRequest req) (request_pipelines self)
    (request_timeout self) st = (Ok v, st1, evs1) →
  send url_user basic_auth session_request self v (report v false st1).1.2 =
    (Ok res, st3, evs3) →
  _handle_thing_with_pipelines (VResponse res) (response_pipelines self)
    (request_timeout self) st3 = (Ok out, st4, evs4) →
  ∃ st5 evs,
    request url_user basic_auth session_request self req st = (Ok out, st5, evs) ∧
    (∀ k, total_of k (_reports st5) =
            total_of k (_reports st) +
            (if decide (k = class_name v) then 1 else 0) +
            (if decide (k = class_name out) then 1 else 0)) ∧
    (∀ k, total_of k (_drop_reports st5) = total_of k (_drop_reports st)).
Proof.
  intros Hpre Hsend Hpost.
  destruct (report_totals v false st1) as (st2 & Hreport & Hget & Hdropped).
  rewrite Hreport in Hsend. simpl in Hsend.
  destruct (send_counters self v st2) as (Hsrep & Hsdrop). rewrite Hsend in Hsrep, Hsdrop.
  simpl in Hsrep, Hsdrop.
  destruct (report_totals out false st4) as (st5 & Hreport2 & Hget2 & Hdropped2).
  unfold request.
  rewrite bind_run, Hpre, bind_run, Hreport, bind_run, Hsend, bind_run, Hpost,
    bind_run, Hreport2.
  rewrite handle_unfold in Hpre, Hpost.
  destruct (pipeline_loop (VRequest req) (request_timeout self)
              (request_pipelines self) (VRequest req) st) as [[r0 st1'] evs0] eqn:Hloop.
  injection Hpre as -> -> <-.
  apply pipeline_loop_Ok in Hloop as [_ (_ & _ & Hrep & Hdrop & _)].
  destruct (pipeline_loop (VResponse res) (request_timeout self)
              (response_pipelines self) (VResponse res) st3) as [[r1 st4'] evs0'] eqn:Hloop2.
  injection Hpost as -> -> <-.
  apply pipeline_loop_Ok in Hloop2 as [_ (_ & _ & Hrep4 & Hdrop4 & _)].
  eexists _, _. split; [reflexivity|]. split; intros k.
  - rewrite Hget2, Hrep4, Hsrep, Hget, Hrep.
    destruct (decide (false = false ∧ k = class_name v)) as [[_ ?]|Hd1],
             (decide (false = false ∧ k = class_name out)) as [[_ ?]|Hd2],
             (decide (k = class_name v)), (decide (k = class_name out));
      try done; exfalso; (by apply Hd1) || (by apply Hd2).
  - rewrite Hdropped2, Hdrop4, Hsdrop, Hdropped, Hdrop.
    destruct (decide (false = true ∧ k = class_name v)) as [[? _]|],
             (decide (false = true ∧ k = class_name out)) as [[? _]|]; try done. lia.
Qed.
End RequestCounts.

(** ** More on [_request] and the session pool *)

Lemma dict_set_length_None {K V : Type} `{EqDecision K} (k : K) (v : V) (d : list (K * V)) :
  dict_get k d = None → length (dict_set k v d) = S (length d).
Proof.
  induction d as [|[k' v'] d IH]; simpl; [done|].
  destruct (decide (k = k')); [done|]. intros Hget. simpl. by rewrite IH.
Qed.

Lemma requested_app evs1 evs2 : requested (evs1 ++ evs2) = requested evs1 ++ requested evs2.
Proof. apply omap_app. Qed.

Section PoolFacts.
Context {World : Type}.
Variable url_user : string → option string.
Variable basic_auth : string → string.
Variable session_request : nat → Kwargs → World → Settle ClientResponse * World.
Implicit Types (st : @State World) (self : @Ant World) (host : option string)
  (cookies : option (gmap string string)).

(** What the session step keeps and establishes. *)
Lemma acquire_session_inv host cookies st :
  pool_wf st →
  ∃ sid st' evs,
    acquire_session host cookies st = (Ok sid, st', evs) ∧
    requested evs = [] ∧
    dict_get host (sessions st') = Some sid ∧
    (∃ s, heap st' !! sid = Some s ∧
          ∀ name v, cookies ≫= (.!! name) = Some v → cookie_jar s !! name = Some v) ∧
    pool_wf st' ∧
    (∀ h sid0, dict_get h (sessions st) = Some sid0 →
               dict_get h (sessions st') = Some sid0) ∧
    (length (heap st) = length (sessions st) →
     length (heap st') = length (sessions st')).
Proof.
  intros [Hinj Hbound].
  destruct (dict_get host (sessions st)) as [cached|] eqn:Hget.
  - rewrite (acquire_session_hit _ _ _ _ Hget).
    eexists _, _, _. split; [reflexivity|]. split; [done|].
    destruct (lookup_lt_is_Some_2 (heap st) cached (Hbound _ _ Hget)) as [s Hs].
    destruct cookies as [c|]; simpl.
    + split; [done|]. split.
      { exists (update_cookies c s). rewrite list_lookup_alter_eq, Hs. split; [done|].
        intros name v Hc. by rewrite update_cookies_lookup, Hc. }
      split; [|split; [done|by rewrite length_alter]].
      split; simpl; [done|]. intros h s0 Hh. rewrite length_alter. by eapply Hbound.
    + split; [done|]. split; [by exists s|]. by repeat split.
  - rewrite (acquire_session_miss _ _ _ Hget).
    eexists _, _, _. split; [reflexivity|]. split; [done|]. simpl.
    split; [apply dict_get_set_eq|]. split.
    { exists (ClientSession cookies). split; [by apply list_lookup_middle|].
      intros name v Hc. by rewrite ClientSession_lookup. }
    split; [|split].
    + split; simpl.
      * intros h1 h2 s1 s2.
        destruct (decide (h1 = host)) as [->|Hne1], (decide (h2 = host)) as [->|Hne2];
          rewrite ?dict_get_set_eq, ?dict_get_set_ne by done; try done.
        -- intros [= <-] Hh%Hbound _. lia.
        -- intros Hh%Hbound [= <-] _. lia.
        -- apply Hinj.
      * intros h s. rewrite length_app. simpl.
        destruct (decide (h = host)) as [->|Hne].
        -- rewrite dict_get_set_eq. intros [= <-]. lia.
        -- rewrite dict_get_set_ne by done. intros Hh%Hbound. lia.
    + intros h sid0 Hh. rewrite dict_get_set_ne; [done|]. congruence.
    + intros Hlen. rewrite length_app, dict_set_length_None by done. simpl. lia.
Qed.

(** [_request] on a request: the session step, then one call of the
    transport on the session it gave; the pool is as the session step left
    it, whatever the transport does. *)
Lemma _request_run self (req : Request) st sid st1 evs1 :
  acquire_session (req_host req) (req_cookies req) st = (Ok sid, st1, evs1) →
  ∃ kw,
    (_request url_user basic_auth session_request self (VRequest req) st).2 =
      evs1 ++ [EvSessionRequest sid kw] ∧
    sessions (_request url_user basic_auth session_request self (VRequest req) st).1.2 =
      sessions st1 ∧
    heap (_request url_user basic_auth session_request self (VRequest req) st).1.2 =
      heap st1 ∧
    kw_url kw = req_url req ∧ kw_method kw = req_method req ∧
    kw_params kw = req_params req ∧ kw_data kw = req_data req ∧
    kw_proxy kw = request_proxy self ∧
    kw_max_redirects kw = request_max_redirects self ∧
    kw_allow_redirects kw = request_allow_redirects self ∧
    kw_headers kw =
      match request_proxy self with
      | None => req_headers req
      | Some proxy =>
          match url_user proxy with
          | None => req_headers req
          | Some _ =>
              Some (<[PROXY_AUTHORIZATION := basic_auth proxy]>
                      (default ∅ (req_headers req)))
          end
      end.
Proof.
  intros Hacq. unfold _request. rewrite bind_run, Hacq.
  unfold bind, emit, call_world, lift_res, await. simpl.
  destruct (session_request _ _ _) as [[[aio|e]|d [aio|e]] w]; simpl;
    eexists; (split; [reflexivity|]); by repeat split.
Qed.

(** X9: [_request] calls the transport exactly once, with the url, method,
    params and data of the request and the proxy and redirect settings of
    the instance.  When the proxy URL has a user, the headers it passes have
    the Proxy-Authorization header of that proxy and otherwise the headers of
    the request; when there is no proxy, or a proxy without a user, they are
    the headers of the request as they are. *)
Theorem request_passes_proxy_authorization self (req : Request) st :
  ∃ sid kw,
    requested (_request url_user basic_auth session_request self (VRequest req) st).2 =
      [(sid, kw)] ∧
    kw_url kw = req_url req ∧ kw_method kw = req_method req ∧
    kw_params kw = req_params req ∧ kw_data kw = req_data req ∧
    kw_proxy kw = request_proxy self ∧
    kw_max_redirects kw = request_max_redirects self ∧
    kw_allow_redirects kw = request_allow_redirects self ∧
    match request_proxy self ≫= (λ proxy, url_user proxy ≫= (λ _, Some proxy)) with
    | Some proxy =>
        ∃ h, kw_headers kw = Some h ∧
          h !! PROXY_AUTHORIZATION = Some (basic_auth proxy) ∧
          ∀ name, name ≠ PROXY_AUTHORIZATION →
                  h !! name = req_headers req ≫= (.!! name)
    | None => kw_headers kw = req_headers req
    end.
Proof.
  destruct (acquire_session (req_host req) (req_cookies req) st)
    as [[[sid|e] st1] evs1] eqn:Hacq.
  2:{ exfalso. destruct (dict_get (req_host req) (sessions st)) as [c|] eqn:Hget.
      - by rewrite (acquire_session_hit _ _ _ _ Hget) in Hacq.
      - by rewrite (acquire_session_miss _ _ _ Hget) in Hacq. }
  destruct (_request_run self req st sid st1 evs1 Hacq)
    as (kw & Hevs & _ & _ & Hurl & Hm & Hp & Hd & Hproxy & Hmax & Hallow & Hheaders).
  exists sid, kw. rewrite Hevs, requested_app.
  assert (Hnone : requested evs1 = []).
  { destruct (dict_get (req_host req) (sessions st)) as [c|] eqn:Hget.
    - rewrite (acquire_session_hit _ _ _ _ Hget) in Hacq. by injection Hacq as <- <- <-.
    - rewrite (acquire_session_miss _ _ _ Hget) in Hacq. by injection Hacq as <- <- <-. }
  rewrite Hnone. split_and!; try done.
  rewrite Hheaders. destruct (request_proxy self) as [proxy|]; simpl; [|done].
  destruct (url_user proxy); simpl; [|done].
  eexists. split; [reflexivity|]. split; [apply lookup_insert_eq|].
  intros name Hne. rewrite lookup_insert_ne by done.
  destruct (req_headers req); simpl; [done | apply lookup_empty].
Qed.

(** X10: with a pool in which no two hosts name the same session, [_request]
    calls the transport on the session cached for the host of the request,
    and that session's jar holds every cookie of the request; this is so
    whether the transport returns or raises, so a failed send leaves the
    session cached.  No host loses or changes its session, no two hosts come
    to share one, and a pool with as many sessions as hosts stays so. *)
Theorem request_uses_the_session_of_the_host self (req : Request) st :
  pool_wf st →
  let out := _request url_user basic_auth session_request self (VRequest req) st in
  ∃ sid kw s,
    requested out.2 = [(sid, kw)] ∧
    dict_get (req_host req) (sessions out.1.2) = Some sid ∧
    heap out.1.2 !! sid = Some s ∧
    (∀ name v, req_cookies req ≫= (.!! name) = Some v → cookie_jar s !! name = Some v) ∧
    pool_wf out.1.2 ∧
    (∀ h sid0, dict_get h (sessions st) = Some sid0 →
               dict_get h (sessions out.1.2) = Some sid0) ∧
    (length (heap st) = length (sessions st) →
     length (heap out.1.2) = length (sessions out.1.2)).
Proof.
  intros Hwf. cbv zeta.
  destruct (acquire_session_inv (req_host req) (req_cookies req) st Hwf)
    as (sid & st1 & evs1 & Hacq & Hnone & Hget & (s & Hs & Hjar) & Hwf1 & Hkeep & Hlen).
  destruct (_request_run self req st sid st1 evs1 Hacq) as (kw & Hevs & Hsess & Hheap & _).
  exists sid, kw, s. rewrite Hevs, requested_app, Hnone, Hsess, Hheap.
  split_and!; try done.
  destruct Hwf1 as [Hinj Hbound]. split; rewrite ?Hsess, ?Hheap; done.
Qed.
End PoolFacts.

Section RepeatFacts.
Context {World : Type}.
Implicit Types (st : @State World) (host : option string)
  (cookies : option (gmap string string)).

Lemma update_cookies_twice (c : gmap string string) s :
  update_cookies c (update_cookies c s) = update_cookies c s.
Proof.
  unfold update_cookies. simpl. f_equal.
  by rewrite (assoc_L (∪)), (idemp_L (∪)).
Qed.

(** X11: repeating the session step for the same host and cookies, as every
    retry of a send does, gives the same session and changes nothing: no
    further session is created and the jar stays as the first step left
    it. *)
Theorem repeated_request_keeps_the_pool host cookies st :
  acquire_session host cookies (acquire_session host cookies st).1.2 =
    ((acquire_session host cookies st).1.1, (acquire_session host cookies st).1.2, []).
Proof.
  destruct (dict_get host (sessions st)) as [sid|] eqn:Hget.
  - rewrite (acquire_session_hit _ _ _ _ Hget). simpl.
    rewrite (acquire_session_hit host cookies _ sid) by by destruct cookies.
    destruct cookies as [c|]; [|done]. simpl. unfold set_heap. simpl.
    rewrite list_alter_alter_eq.
    rewrite (list_alter_ext (update_cookies c ∘ update_cookies c) (update_cookies c)
               (heap st) (heap st) sid); [done | | done].
    intros s _. apply update_cookies_twice.
  - rewrite (acquire_session_miss _ _ _ Hget). simpl.
    rewrite (acquire_session_hit host cookies _ (length (heap st)))
      by (simpl; apply dict_get_set_eq).
    destruct cookies as [c|]; [|done]. simpl. unfold set_heap, set_sessions. simpl.
    rewrite alter_app_r_alt by lia. rewrite Nat.sub_diag. simpl.
    by rewrite (update_cookies_twice c {| cookie_jar := ∅; closed := false |}).
Qed.
End RepeatFacts.

(** ** More on [main], [open] and [report] *)

Section MainFacts.
Context {World : Type}.
Variable session_close : nat → World → Settle unit * World.
Variable scheduled : @State World → @State World * list event.
Implicit Types (st : @State World) (self : @Ant World).

(** X12: nothing that [open], [run] or the scheduled coroutines do makes
    [main] fail: [main] returns unless [close] raises, and then it fails with
    the error of [close]. *)
Theorem main_fails_only_when_close_fails self st :
  let st1 := (open self st).1.2 in
  let st2 := (run self st1).1.2 in
  let st3 := (scheduled st2).1 in
  (main session_close scheduled self st).1.1 =
    match (close session_close self st3).1.1 with
    | Ok _ => Ok tt
    | Raise e => Raise e
    end.
Proof.
  cbv zeta. rewrite main_unfold.
  destruct (open self st) as [[r1 st1] evs1]. simpl.
  destruct (run self st1) as [[r2 st2] evs2]. simpl.
  destruct (scheduled st2) as [st3 evs3]. simpl.
  destruct (close session_close self st3) as [[[[]|e'] st4] evs4]; [|done].
  by destruct (scheduled st4) as [st5 evs5].
Qed.

(** X13: when [run] returns, [main] has opened the pipelines, run the
    crawl, waited for the scheduled coroutines, closed, waited again and
    logged the final summary, in this order and with nothing logged about
    [run]; the summary has one line for every delivered kind, one for every
    dropped kind and the running time.  (When [close] raises, [main] stops
    after the events of [close].) *)
Theorem main_runs_the_whole_sequence self st st2 evs2 :
  run self (open self st).1.2 = (Ok tt, st2, evs2) →
  match close session_close self (scheduled st2).1 with
  | (Ok _, st4, evs4) =>
      main session_close scheduled self st =
        (Ok tt, (scheduled st4).1,
         (open self st).2 ++ evs2 ++
         [EvWaitScheduled] ++ (scheduled st2).2 ++
         evs4 ++
         [EvWaitScheduled] ++ (scheduled st4).2 ++
         map (λ '(name, c), EvLog INFO (MsgGetTotal (snd c) name))
           (_reports (scheduled st4).1) ++
         map (λ '(name, c), EvLog INFO (MsgDropTotal (snd c) name))
           (_drop_reports (scheduled st4).1) ++
         [EvLog INFO (MsgRunIn (ant_name self)
                        (clock (scheduled st4).1 - _start_time (scheduled st4).1))])
  | (Raise e', st4, evs4) =>
      main session_close scheduled self st =
        (Raise e', st4,
         (open self st).2 ++ evs2 ++ [EvWaitScheduled] ++ (scheduled st2).2 ++ evs4)
  end.
Proof.
  intros Hrun. rewrite main_unfold. cbv zeta.
  destruct (open self st) as [[r1 st1] evs1]. simpl in *. rewrite Hrun.
  destruct (scheduled st2) as [st3 evs3]. simpl.
  destruct (close session_close self st3) as [[[[]|e'] st4] evs4]; [|done].
  by destruct (scheduled st4) as [st5 evs5].
Qed.

Lemma open_hooks_inv (pipelines : list (@Pipeline World)) st :
  ∃ st' evs,
    for_each pipelines (λ pipeline,
      try_except
        (emit (EvSpiderOpen (pl_name pipeline)) ;;
         call_hook (on_spider_open pipeline))
        (λ e, log EXCEPTION (MsgOpenPipelinesWith (exn_class e)))) st
      = (Ok tt, st', evs) ∧
    same_instance st st' ∧
    (length (logged_exceptions evs) ≤ length pipelines)%nat.
Proof.
  revert st. induction pipelines as [|p rest IH]; intros st; simpl.
  - eexists _, _. split; [reflexivity|]. split; [apply same_instance_refl | done].
  - destruct (guarded_hook_inv (EvSpiderOpen (pl_name p)) (on_spider_open p)
                MsgOpenPipelinesWith st) as (st1 & tail & Hhook & Htail & Hsame1).
    destruct (IH st1) as (st2 & evs2 & Hrest & Hsame2 & Hlen).
    rewrite bind_run, Hhook, Hrest.
    eexists _, _. split; [reflexivity|].
    split; [by eapply same_instance_trans|].
    unfold logged_exceptions in *. rewrite omap_app, length_app.
    destruct Htail as [->|[e ->]]; simpl; lia.
Qed.

(** X14: [open] always returns, whatever the open hooks do; it changes at
    most the world and the clock (no session, no counter, no flush time),
    and logs at most one exception for each pipeline. *)
Theorem open_leaves_the_instance_alone self st :
  ∃ st' evs,
    open self st = (Ok tt, st', evs) ∧
    same_instance st st' ∧
    (length (logged_exceptions evs) ≤
       length (item_pipelines self) + length (response_pipelines self) +
       length (request_pipelines self))%nat.
Proof.
  destruct (open_hooks_inv (all_pipelines self) st) as (st' & evs & Hrun & Hsame & Hlen).
  unfold open. rewrite bind_log, Hrun. eexists _, _. split; [reflexivity|].
  split; [done|]. unfold all_pipelines in Hlen. rewrite !length_app in Hlen.
  change (logged_exceptions (EvLog INFO MsgOpening :: evs)) with (logged_exceptions evs).
  lia.
Qed.
End MainFacts.

Lemma counts_ok_rebaseline d : counts_ok d → counts_ok (rebaseline d).
Proof.
  unfold counts_ok, rebaseline. intros Hok. apply Forall_fmap.
  eapply Forall_impl; [exact Hok|]. intros [n [b t]]; simpl. lia.
Qed.

Lemma counts_ok_dict_set k c (d : counters) :
  0 ≤ c.1 ≤ c.2 → counts_ok d → counts_ok (dict_set k c d).
Proof.
  unfold counts_ok. intros Hc. induction d as [|[k' c'] d IH]; simpl; intros Hok.
  - constructor; [done | constructor].
  - inversion Hok as [|? ? Hhd Htl]; subst.
    destruct (decide (k = k')); constructor; auto.
Qed.

Lemma counts_ok_get k c (d : counters) :
  counts_ok d → dict_get k d = Some c → 0 ≤ c.1 ≤ c.2.
Proof.
  unfold counts_ok. induction d as [|[k' c'] d IH]; simpl; intros Hok; [done|].
  inversion Hok as [|? ? Hhd Htl]; subst.
  destruct (decide (k = k')); [by intros [= <-] | auto].
Qed.

Lemma counts_ok_count_one kind d : counts_ok d → counts_ok (count_one kind d).
Proof.
  intros Hok. unfold count_one, defaultdict_getitem.
  destruct (dict_get kind d) as [[b t]|] eqn:Hget.
  - apply counts_ok_dict_set; [|done].
    pose proof (counts_ok_get _ _ _ Hok Hget). simpl in *. lia.
  - apply counts_ok_dict_set; [simpl; lia|]. apply counts_ok_dict_set; [simpl; lia | done].
Qed.

Lemma flush_log_rate fmt slot (d : counters) ev :
  counts_ok d → ev ∈ flush_log fmt slot d →
  ∃ total name count, ev = EvLog INFO (fmt total name count slot) ∧ 0 ≤ count ≤ total.
Proof.
  unfold counts_ok, flush_log. intros Hok [[n [b t]] [-> Hin]]%list_elem_of_fmap.
  rewrite Forall_forall in Hok. specialize (Hok _ Hin). simpl in Hok.
  exists t, n, (t - b). split; [done | lia].
Qed.

Lemma dict_keys_rebaseline d : dict_keys (rebaseline d) = dict_keys d.
Proof.
  unfold dict_keys, rebaseline. induction d as [|[n [b t]] d IH]; simpl; [done|].
  by rewrite IH.
Qed.

Lemma dict_keys_set (k : string) (c : counts) (d : counters) :
  dict_keys (dict_set k c d) =
    dict_keys d ++ (if decide (k ∈ dict_keys d) then [] else [k]).
Proof.
  unfold dict_keys. induction d as [|[k' c'] d IH]; simpl; [done|].
  destruct (decide (k = k')) as [->|Hne]; simpl.
  - rewrite decide_True by apply list_elem_of_here. by rewrite app_nil_r.
  - rewrite IH. f_equal.
    destruct (decide (k ∈ map fst d)) as [Hin|Hnin].
    + by rewrite decide_True by by apply list_elem_of_further.
    + rewrite decide_False; [done|]. by intros [?|?]%elem_of_cons.
Qed.

Lemma dict_keys_count_one kind d :
  dict_keys (count_one kind d) =
    dict_keys d ++ (if decide (kind ∈ dict_keys d) then [] else [kind]).
Proof.
  unfold count_one, defaultdict_getitem.
  destruct (dict_get kind d) as [[b t]|] eqn:Hget; [apply dict_keys_set|].
  rewrite !dict_keys_set.
  destruct (decide (kind ∈ dict_keys d)) as [Hin|Hnin].
  - rewrite !app_nil_r. rewrite decide_True by done. by rewrite app_nil_r.
  - rewrite decide_True by (apply elem_of_app; right; apply list_elem_of_here).
    by rewrite app_nil_r.
Qed.

Section ReportMore.
Context {World : Type}.
Implicit Types (st : @State World).

(** X15: [report] keeps every baseline between 0 and its total, in both
    dictionaries, so every count "since the last flush" it logs is between 0
    and the total logged with it. *)
Theorem report_keeps_baselines_below_totals thing dropped st :
  counts_ok (_reports st) →
  counts_ok (_drop_reports st) →
  counts_ok (_reports (report thing dropped st).1.2) ∧
  counts_ok (_drop_reports (report thing dropped st).1.2) ∧
  ∀ lv m, EvLog lv m ∈ (report thing dropped st).2 →
    ∃ total name count slot,
      (m = MsgGetRate total name count slot ∨ m = MsgDropRate total name count slot) ∧
      0 ≤ count ≤ total.
Proof.
  intros Hget Hdrop. rewrite report_unfold. cbv zeta. simpl.
  destruct (_report_slot st <? clock st - _last_time st), dropped; simpl;
    (split; [auto using counts_ok_count_one, counts_ok_rebaseline|]);
    (split; [auto using counts_ok_count_one, counts_ok_rebaseline|]);
    intros lv m Hin; try (by apply elem_of_nil in Hin);
    apply elem_of_app in Hin as [Hin|Hin];
    eapply flush_log_rate in Hin as (total & name & count & [= -> ->] & Hcount); eauto 10.
Qed.

(** X16: [report] never removes or reorders a kind: the kinds of the
    dictionary it counts in are the kinds it had, followed by the class of
    the reported thing when that is new, and the kinds of the other
    dictionary are unchanged; so both list their kinds in the order in which
    each was first reported. *)
Theorem report_lists_kinds_in_order_of_first_report thing dropped st :
  let st' := (report thing dropped st).1.2 in
  let counted (s : @State World) := if dropped then _drop_reports s else _reports s in
  let other (s : @State World) := if dropped then _reports s else _drop_reports s in
  dict_keys (counted st') =
    dict_keys (counted st) ++
    (if decide (class_name thing ∈ dict_keys (counted st)) then [] else [class_name thing]) ∧
  dict_keys (other st') = dict_keys (other st).
Proof.
  cbv zeta. rewrite report_unfold. cbv zeta. simpl.
  destruct (_report_slot st <? clock st - _last_time st), dropped; simpl;
    rewrite ?dict_keys_count_one, ?dict_keys_rebaseline; done.
Qed.
End ReportMore.

(** ** The further properties at concrete crawlers *)

Section MoreWitnesses.
Import Scenario.

(** Both sessions of [two_sessions] are closed, in the order of the hosts. *)
Lemma close_closes_all_sessions_witness :
  ∃ st' evs,
    close closes (crawler [] [] [identity "I"] 3 (ret tt)) two_sessions = (Ok tt, st', evs) ∧
    sessions_closed evs = [0%nat; 1%nat] ∧
    last evs = Some (EvLog INFO MsgClosed).
Proof.
  destruct (close_closes_all_sessions closes (crawler [] [] [identity "I"] 3 (ret tt))
              two_sessions (λ sid w, I))
    as (st' & evs & Hrun & Hclosed & Hlast & _).
  exists st', evs. split; [exact Hrun|]. split; [exact Hclosed | exact Hlast].
Defined.

(** A stage whose coroutine needs 500 time-units under a timeout of 300:
    the runner fails with the timeout error and no item is dropped. *)
Lemma raising_stage_is_not_recorded_witness :
  _handle_thing_with_pipelines an_item [identity "A"; to_none "N" 500; identity "C"]
    (Some 300) st0 =
    (Raise TimeoutError, advance 300 st0,
     [EvLog DEBUG (MsgProcessThing an_item); EvProcess "A" an_item] ++
     [EvProcess "N" an_item]) ∧
  _drop_reports (advance 300 st0) = _drop_reports st0.
Proof.
  destruct (raising_stage_is_not_recorded an_item (Some 300) [identity "A"]
              (to_none "N" 500) [identity "C"] st0 _ _ _ TimeoutError _ _
              eq_refl eq_refl) as (Hrun & _ & Hdrop & _).
  split; [exact Hrun | exact Hdrop].
Defined.

Lemma declined_request_is_never_sent_witness :
  ∃ st3 evs,
    request no_user no_auth flaky
      (crawler [identity "A"; blocking "B"] [] [] 3 (ret tt)) a_request st0 =
      (Raise blocked, st3, evs) ∧
    sent evs = [] ∧ heap st3 = [].
Proof.
  destruct (declined_request_is_never_sent no_user no_auth flaky
              (crawler [identity "A"; blocking "B"] [] [] 3 (ret tt)) a_request
              [identity "A"] (blocking "B") [] st0 _ _ _ blocked _ _
              eq_refl eq_refl eq_refl)
    as (st3 & evs & Hrun & Hsent & _ & Hheap & _).
  exists st3, evs. split; [exact Hrun|]. split; [exact Hsent | exact Hheap].
Defined.

(** An item pipeline that turns the item into [None]: one Item is counted. *)
Lemma collect_counts_the_original_item_witness :
  ∃ st2 evs,
    collect (Some 300) (crawler [] [] [to_none "N" 2] 3 (ret tt)) an_item st0 =
      (Ok tt, st2, evs) ∧
    total_of "Item" (_reports st2) = 1 ∧
    total_of "NoneType" (_reports st2) = 0.
Proof.
  destruct (collect_counts_the_original_item (Some 300)
              (crawler [] [] [to_none "N" 2] 3 (ret tt)) an_item st0 _ _ _ eq_refl)
    as (st2 & evs & Hrun & Hget & _).
  exists st2, evs. split; [exact Hrun|]. split; rewrite Hget; reflexivity.
Defined.

(** A refused connection, no retry: the Request is counted, no Response. *)
Lemma failed_send_still_counts_the_request_witness :
  ∃ st3 evs,
    request no_user no_auth refusing (crawler [] [] [] 0 (ret tt)) a_request st0 =
      (Raise refused, st3, evs) ∧
    total_of "Request" (_reports st3) = 1 ∧
    total_of "Response" (_reports st3) = 0.
Proof.
  destruct (failed_send_still_counts_the_request no_user no_auth refusing
              (crawler [] [] [] 0 (ret tt)) a_request st0 _ _ _ refused _ _
              eq_refl eq_refl)
    as (evs & Hrun & Hget & _).
  eexists _, evs. split; [exact Hrun|]. split; rewrite Hget; reflexivity.
Defined.

(** An answer 200 at the first attempt: one Request and one Response. *)
Lemma delivered_request_counts_both_outputs_witness :
  ∃ out st5 evs,
    request no_user no_auth steady (crawler [] [] [] 0 (ret tt)) plain_request st0 =
      (Ok out, st5, evs) ∧
    total_of "Request" (_reports st5) = 1 ∧
    total_of "Response" (_reports st5) = 1.
Proof.
  destruct (delivered_request_counts_both_outputs no_user no_auth steady
              (crawler [] [] [] 0 (ret tt)) plain_request st0 _ _ _ _ _ _ _ _ _
              eq_refl eq_refl eq_refl)
    as (st5 & evs & Hrun & Hget & _).
  eexists _, st5, evs. split; [exact Hrun|]. split; rewrite Hget; reflexivity.
Defined.

(** A request to a.example on [two_sessions], the connection refused: the
    transport was called on session 0, which stays cached, and b.example
    keeps session 1. *)
Lemma request_uses_the_session_of_the_host_witness :
  ∃ kw s,
    requested (_request no_user no_auth refusing (crawler [] [] [] 0 (ret tt))
                 (VRequest a_request) two_sessions).2 = [(0%nat, kw)] ∧
    heap (_request no_user no_auth refusing (crawler [] [] [] 0 (ret tt))
            (VRequest a_request) two_sessions).1.2 !! 0%nat = Some s ∧
    cookie_jar s !! "sid" = Some "1" ∧
    dict_get (Some "b.example")
      (sessions (_request no_user no_auth refusing (crawler [] [] [] 0 (ret tt))
                   (VRequest a_request) two_sessions).1.2) = Some 1%nat.
Proof.
  assert (Hwf : pool_wf two_sessions).
  { split.
    - intros h1 h2 s1 s2. simpl.
      repeat case_decide; intros; simplify_eq; done.
    - intros h s. simpl. repeat case_decide; intros; simplify_eq; lia. }
  destruct (request_uses_the_session_of_the_host no_user no_auth refusing
              (crawler [] [] [] 0 (ret tt)) a_request two_sessions Hwf)
    as (sid & kw & s & Hreq & Hget & Hs & Hjar & _ & Hkeep & _).
  assert (Hsid : sid = 0%nat).
  { specialize (Hkeep (Some "a.example") 0%nat eq_refl).
    change (req_host a_request) with (Some "a.example") in Hget. congruence. }
  subst sid. exists kw, s. split; [exact Hreq|]. split; [exact Hs|].
  split; [apply Hjar; reflexivity | apply Hkeep; reflexivity].
Defined.

Lemma main_runs_the_whole_sequence_witness :
  main closes nothing_scheduled (crawler [] [] [] 3 (ret tt)) busy =
    (Ok tt, busy,
     [EvLog INFO MsgOpening;
      EvWaitScheduled;
      EvLog INFO MsgClosed;
      EvWaitScheduled;
      EvLog INFO (MsgGetTotal 3 "Item");
      EvLog INFO (MsgDropTotal 2 "Request");
      EvLog INFO (MsgRunIn "Crawler" 100)]).
Proof.
  exact (main_runs_the_whole_sequence closes nothing_scheduled
           (crawler [] [] [] 3 (ret tt)) busy busy [] eq_refl).
Defined.

(** A report on [busy] flushes: 3 items in total, 2 since the last flush. *)
Lemma report_keeps_baselines_below_totals_witness :
  counts_ok (_reports (report an_item false busy).1.2) ∧
  EvLog INFO (MsgGetRate 3 "Item" 2 60) ∈ (report an_item false busy).2.
Proof.
  assert (Hget : counts_ok (_reports busy)).
  { constructor; [simpl; lia | constructor]. }
  assert (Hdrop : counts_ok (_drop_reports busy)).
  { constructor; [simpl; lia | constructor]. }
  destruct (report_keeps_baselines_below_totals an_item false busy Hget Hdrop)
    as (Hok & _ & _).
  split; [exact Hok | apply list_elem_of_here].
Defined.
End MoreWitnesses.


(** ** [collect] and the default timeout *)

Section CollectFacts.
Context {World : Type}.
Variable DEFAULT_TIMEOUT : option Z.
Implicit Types (st : @State World) (self : @Ant World) (p : @Pipeline World)
  (pre post : list (@Pipeline World)) (item v out : value).

(** A stage that hands back a coroutine: the timeout decides. *)
Lemma stage_later timeout p v st d (r : Res value) (w : World) :
  process p v (world st) = (Later d r, w) →
  stage timeout p v st =
    if expired timeout d
    then (Raise TimeoutError, advance (default 0 timeout) (set_world w st),
          [EvProcess (pl_name p) v])
    else (r, advance d (set_world w st), [EvProcess (pl_name p) v]).
Proof.
  intros Hprocess. unfold stage, bind, emit, call_world, await_within. simpl.
  rewrite Hprocess. simpl. by destruct (expired timeout d), r.
Qed.

(** C10: the bound on the stages of the item pipelines is
    [DEFAULT_TIMEOUT], whatever [request_timeout] the instance has.  When an
    item stage hands back a coroutine that needs more than [DEFAULT_TIMEOUT],
    [collect] fails with the timeout error once [DEFAULT_TIMEOUT] has passed;
    when the coroutine needs no more than that and returns a value that is
    no exception, it is not cut off: the remaining stages run from that
    value under the same bound, and after the last stage [collect] reports
    the item and returns [None]. *)
Theorem collect_runs_under_default_timeout self item st t pre p post v st1 evs1 d r w :
  item_pipelines self = pre ++ p :: post →
  _handle_thing_with_pipelines item pre DEFAULT_TIMEOUT st = (Ok v, st1, evs1) →
  process p v (world st1) = (Later d r, w) →
  (expired DEFAULT_TIMEOUT d = true →
     collect DEFAULT_TIMEOUT (set_request_timeout t self) item st =
       (Raise TimeoutError,
        advance (default 0 DEFAULT_TIMEOUT) (set_world w st1),
        EvLog DEBUG (MsgCollectItem item) :: evs1 ++ [EvProcess (pl_name p) v])) ∧
  (expired DEFAULT_TIMEOUT d = false →
     ∀ out, r = Ok out → is_exception out = false →
     collect DEFAULT_TIMEOUT (set_request_timeout t self) item st =
       match (pipeline_loop item DEFAULT_TIMEOUT post out ;; report item false)
               (advance d (set_world w st1)) with
       | (r', st', evs') =>
           (r', st',
            EvLog DEBUG (MsgCollectItem item) :: evs1 ++ EvProcess (pl_name p) v :: evs')
       end) ∧
  (expired DEFAULT_TIMEOUT d = false →
     ∀ out, r = Ok out → is_exception out = false → post = [] →
     collect DEFAULT_TIMEOUT (set_request_timeout t self) item st =
       (Ok tt,
        (report item false (advance d (set_world w st1))).1.2,
        EvLog DEBUG (MsgCollectItem item) :: evs1 ++ EvProcess (pl_name p) v ::
        (report item false (advance d (set_world w st1))).2)).
Proof.
  intros Hpipes Hpre Hprocess.
  change (collect DEFAULT_TIMEOUT (set_request_timeout t self) item st)
    with (collect DEFAULT_TIMEOUT self item st).
  rewrite handle_unfold in Hpre.
  destruct (pipeline_loop item DEFAULT_TIMEOUT pre item st) as [[r0 st1'] evs0] eqn:Hloop.
  injection Hpre as -> -> <-.
  assert (Hcollect : collect DEFAULT_TIMEOUT self item st =
    match
      (let '(r1, st2, evs2) := pipeline_loop item DEFAULT_TIMEOUT (p :: post) v st1 in
       match r1 with
       | Ok _ =>
           let '(r3, st3, evs3) := report item false st2 in
           (r3, st3, evs2 ++ evs3)
       | Raise e => (Raise e, st2, evs2)
       end)
    with
    | (r', st', evs') =>
        (r', st',
         EvLog DEBUG (MsgCollectItem item) ::
         (EvLog DEBUG (MsgProcessThing item) :: evs0) ++ evs')
    end).
  { unfold collect. rewrite bind_log, bind_run, Hpipes, handle_unfold, pipeline_loop_app, Hloop.
    destruct (pipeline_loop item DEFAULT_TIMEOUT (p :: post) v st1) as [[[x|e] st2] evs2];
      [|done].
    destruct (report item false st2) as [[r3 st3] evs3]. simpl.
    by rewrite (app_assoc evs0). }
  rewrite Hcollect. clear Hcollect. simpl pipeline_loop.
  rewrite bind_run, (stage_later _ _ _ _ _ _ _ Hprocess).
  assert (Hpass : ∀ out, is_exception out = false →
    (let '(r1, st2, evs2) :=
       (let '(r', st', evs') :=
          match out with
          | VException e => report item true ;; raise e
          | _ => pipeline_loop item DEFAULT_TIMEOUT post out
          end (advance d (set_world w st1)) in
        (r', st', [EvProcess (pl_name p) v] ++ evs')) in
     match r1 with
     | Ok _ =>
         let '(r3, st3, evs3) := report item false st2 in
         (r3, st3, evs2 ++ evs3)
     | Raise e => (Raise e, st2, evs2)
     end : Res unit * State * list event) =
    match (pipeline_loop item DEFAULT_TIMEOUT post out ;; report item false)
            (advance d (set_world w st1)) with
    | (r', st', evs') => (r', st', EvProcess (pl_name p) v :: evs')
    end).
  { intros out Hout. rewrite bind_run.
    destruct out; simpl in Hout; try discriminate;
      destruct (pipeline_loop item DEFAULT_TIMEOUT post _ (advance d (set_world w st1)))
        as [[[x|e] st2] evs2]; try done;
      by destruct (report item false st2) as [[r3 st3] evs3]. }
  split; [|split].
  - by intros ->.
  - intros -> out -> Hout. rewrite (Hpass out Hout).
    by destruct ((pipeline_loop item DEFAULT_TIMEOUT post out ;; report item false)
                   (advance d (set_world w st1))) as [[r' st'] evs'].
  - intros -> out -> Hout ->. rewrite (Hpass out Hout). simpl pipeline_loop.
    rewrite bind_run. unfold ret.
    pose proof (report_returns item false (advance d (set_world w st1))) as Hr.
    destruct (report item false (advance d (set_world w st1))) as [[r3 st3] evs3].
    simpl in Hr. by subst r3.
Qed.
End CollectFacts.

(** An item stage of 500 time-units is cut off at the default timeout of
    300, although the instance has no [request_timeout] at all. *)
Lemma collect_runs_under_default_timeout_witness :
  collect (Some 300)
    (set_request_timeout None
       (Scenario.crawler [] [] [Scenario.identity "A"; Scenario.to_none "N" 500] 3 (ret tt)))
    Scenario.an_item Scenario.st0 =
    (Raise TimeoutError, advance 300 Scenario.st0,
     [EvLog DEBUG (MsgCollectItem Scenario.an_item);
      EvLog DEBUG (MsgProcessThing Scenario.an_item);
      EvProcess "A" Scenario.an_item; EvProcess "N" Scenario.an_item]).
Proof.
  exact (proj1 (collect_runs_under_default_timeout (Some 300)
                  (Scenario.crawler [] [] [Scenario.identity "A"; Scenario.to_none "N" 500]
                     3 (ret tt))
                  Scenario.an_item Scenario.st0 None
                  [Scenario.identity "A"] (Scenario.to_none "N" 500) []
                  _ _ _ 500 (Ok VNone) 0%nat eq_refl eq_refl eq_refl) eq_refl).
Defined.
